(** * Autocomplete component: filtering, cursor and visibility state machine

    A shallow embedding of the two versions of the [Autocomplete] React
    component of the repository:

    - [src/components/autocomplete/index.tsx], where [handleOnChange] starts a
      bare [setTimeout] (module [TimeoutVariant]);
    - the version that wraps the timer in [filterDataAsync], a [Promise]
      (module [PromiseVariant]).

    A string is a sequence of code units below 256 ([string] of the
    standard library, one character per code unit), so the texts and queries
    covered are those written in Latin-1; on them [toLowerCase] and the [i]
    flag of a regular expression work one code unit at a time and fold the
    letters [A-Z] and the accented capitals from 192 to 222.  React state is
    an explicit record, the pending timers are a queue ordered by creation,
    and the host callback and the errors that leave the component are logs
    in the surrounding [World].  The props are those of a page whose data
    has arrived: they do not change during a run. *)

From Stdlib Require Import String Ascii List ZArith Bool Arith Lia Sorted.
Import ListNotations.

Open Scope string_scope.

(** ** JavaScript primitives used by the component *)

Module JS.

(** Abrupt completions: the only exception the component can raise is the
    [TypeError] of a property access or method call on a value that has no
    such property. *)
Inductive Exn : Type := TypeError.

(** [Error(error)]: the new generic error that the [catch] callback of
    [handleOnChange] makes from what it caught, and throws. *)
Inductive Reason : Type := ErrorOf (error : Exn).

Inductive Completion (A : Type) : Type :=
| Normal (a : A)
| Throw (e : Exn).
Arguments Normal {A} a.
Arguments Throw {A} e.

(** The code units below 256 that [toLowerCase] changes: [A-Z], and the
    capitals from 192 to 222 without the multiplication sign 215.  Each goes
    to the code unit 32 above it. *)
Definition isUpper (c : ascii) : bool :=
  let n := nat_of_ascii c in
  ((65 <=? n)%nat && (n <=? 90)%nat)
  || ((192 <=? n)%nat && (n <=? 222)%nat && negb (n =? 215)%nat).

(** The code units below 256 whose upper case is again one code unit below
    256: [a-z], and the letters from 224 to 254 without the division sign
    247. *)
Definition isLower (c : ascii) : bool :=
  let n := nat_of_ascii c in
  ((97 <=? n)%nat && (n <=? 122)%nat)
  || ((224 <=? n)%nat && (n <=? 254)%nat && negb (n =? 247)%nat).

Definition lowerChar (c : ascii) : ascii :=
  if isUpper c then ascii_of_nat (nat_of_ascii c + 32) else c.

(** [String.prototype.toLowerCase] on code units below 256. *)
Fixpoint toLowerCase (s : string) : string :=
  match s with
  | EmptyString => EmptyString
  | String c s' => String (lowerChar c) (toLowerCase s')
  end.

(** [s.startsWith(t)] *)
Fixpoint startsWith (s t : string) {struct t} : bool :=
  match t, s with
  | EmptyString, _ => true
  | String _ _, EmptyString => false
  | String b t', String a s' => Ascii.eqb a b && startsWith s' t'
  end.

(** [s.includes(t)]: [t] occurs in [s] at some position. *)
Fixpoint includes (s t : string) : bool :=
  startsWith s t ||
  match s with
  | EmptyString => false
  | String _ s' => includes s' t
  end.

(** [Array.prototype.filter] with a callback that may throw: the elements are
    visited in order and the first exception aborts the whole call. *)
Fixpoint filter {T : Type} (p : T -> Completion bool) (l : list T)
  : Completion (list T) :=
  match l with
  | [] => Normal []
  | x :: l' =>
      match p x with
      | Throw e => Throw e
      | Normal b =>
          match filter p l' with
          | Throw e => Throw e
          | Normal r => Normal (if b then x :: r else r)
          end
      end
  end.

(** [a[i]] on an array: [undefined] (here [None]) outside the bounds. *)
Definition index {T : Type} (a : list T) (i : Z) : option T :=
  if (i <? 0)%Z then None else nth_error a (Z.to_nat i).

(** [a.indexOf(x)]: position of the first element identical to [x], or -1. *)
Fixpoint indexOf {T : Type} (eqb : T -> T -> bool) (a : list T) (x : T) : Z :=
  match a with
  | [] => (-1)%Z
  | y :: a' =>
      if eqb y x then 0%Z
      else let r := indexOf eqb a' x in
           if (r <? 0)%Z then (-1)%Z else (r + 1)%Z
  end.

End JS.

(** ** Data model *)

(** The value found at [item[filterField]].  The component casts it to
    [string]; a value that is not a string has no [toLowerCase]. *)
Inductive FieldValue : Type :=
| FStr (s : string)
| FOther.

(** The properties the host passes to the component.  [setSelectedItem] is
    optional: the flag says whether the host supplied it. *)
Record Props (T : Type) : Type := mkProps {
  data : list T;
  setSelectedItem : bool;
  filterField : T -> FieldValue;
  sameItem : T -> T -> bool
}.
Arguments mkProps {T}.
Arguments data {T}.
Arguments setSelectedItem {T}.
Arguments filterField {T}.
Arguments sameItem {T}.

(** The four [useState] cells of the component. *)
Record State (T : Type) : Type := mkState {
  value : FieldValue;
  showSuggestions : bool;
  suggestions : list T;
  activeSuggestion : Z
}.
Arguments mkState {T}.
Arguments value {T}.
Arguments showSuggestions {T}.
Arguments suggestions {T}.
Arguments activeSuggestion {T}.

(** The body of the callback of [data.filter]. *)
Definition matchesInput {T : Type} (P : Props T) (input : string) (item : T)
  : JS.Completion bool :=
  match filterField P item with
  | FStr fieldValue =>
      JS.Normal (JS.includes (JS.toLowerCase fieldValue) (JS.toLowerCase input))
  | FOther => JS.Throw JS.TypeError
  end.

(** [data.filter((item) => ...)], the computation both versions run when the
    timer fires. *)
Definition filterData {T : Type} (P : Props T) (input : string)
  : JS.Completion (list T) :=
  JS.filter (matchesInput P input) (data P).

(** ** The component and its environment *)

(** An error that leaves the component and is reported by the browser: an
    exception nobody catches (a timer callback or an event handler) or a
    promise rejected with no handler.  No code of the page receives it. *)
Inductive HostError : Type :=
| Uncaught (e : JS.Exn)
| UnhandledRejection (reason : JS.Reason).

(** Where React and the browser take such an error.  An error boundary
    receives what is thrown while rendering, and nothing else: an exception
    of a timer callback or of an event handler goes to the [error] event of
    the window, a rejection without handler to its [unhandledrejection]
    event. *)
Inductive Delivery : Type :=
| ErrorBoundary
| WindowError
| WindowUnhandledRejection.

Definition delivery (e : HostError) : Delivery :=
  match e with
  | Uncaught _ => WindowError
  | UnhandledRejection _ => WindowUnhandledRejection
  end.

(** The two assignments the key handler makes to [scrollTop] of the list. *)
Inductive Scroll : Type := ScrollTop | ScrollBottom.

(** A pending [setTimeout]: the time at which it is due and the [input] its
    closure captured. *)
Record Timer : Type := mkTimer { due : nat; captured : string }.

Record World (T : Type) : Type := mkWorld {
  ui : State T;
  clock : nat;                 (* milliseconds since mount *)
  timers : list Timer;         (* pending timers, oldest first *)
  selected : list T;           (* calls of setSelectedItem, oldest first *)
  errors : list HostError;     (* errors reported to the window, oldest first *)
  scrolls : list Scroll        (* assignments to scrollTop, oldest first *)
}.
Arguments mkWorld {T}.
Arguments ui {T}.
Arguments clock {T}.
Arguments timers {T}.
Arguments selected {T}.
Arguments errors {T}.
Arguments scrolls {T}.

Inductive Key : Type := ArrowUp | ArrowDown | Escape | Enter | OtherKey.

Definition Key_eqb (a b : Key) : bool :=
  match a, b with
  | ArrowUp, ArrowUp | ArrowDown, ArrowDown | Escape, Escape
  | Enter, Enter | OtherKey, OtherKey => true
  | _, _ => false
  end.

(** What can happen to a mounted component. [ItemClick k] and [ItemEnter k]
    are the mouse events of the [k]-th rendered [<li>]; [OutsideClick] is the
    call of the handler given to [useOnClickOutside]; [Elapse ms] lets [ms]
    milliseconds pass. *)
Inductive Event : Type :=
| Change (input : string)
| KeyDown (key : Key)
| ItemClick (k : nat)
| ItemEnter (k : nat)
| OutsideClick
| Elapse (ms : nat).

Section Setters.
Context {T : Type}.

Definition withUi (f : State T -> State T) (w : World T) : World T :=
  mkWorld (f (ui w)) (clock w) (timers w) (selected w) (errors w) (scrolls w).

Definition setValue (v : FieldValue) : World T -> World T :=
  withUi (fun s => mkState v (showSuggestions s) (suggestions s) (activeSuggestion s)).

Definition setShowSuggestions (b : bool) : World T -> World T :=
  withUi (fun s => mkState (value s) b (suggestions s) (activeSuggestion s)).

Definition setSuggestions (l : list T) : World T -> World T :=
  withUi (fun s => mkState (value s) (showSuggestions s) l (activeSuggestion s)).

(** [setActiveSuggestion] also takes an updater [(prev) => ...]. *)
Definition setActiveSuggestion (f : Z -> Z) : World T -> World T :=
  withUi (fun s => mkState (value s) (showSuggestions s) (suggestions s)
                           (f (activeSuggestion s))).

Definition setTimeout (input : string) (delay : nat) (w : World T) : World T :=
  mkWorld (ui w) (clock w) (timers w ++ [mkTimer (clock w + delay) input])
          (selected w) (errors w) (scrolls w).

Definition callHost (item : T) (w : World T) : World T :=
  mkWorld (ui w) (clock w) (timers w) (selected w ++ [item]) (errors w) (scrolls w).

Definition raise (e : HostError) (w : World T) : World T :=
  mkWorld (ui w) (clock w) (timers w) (selected w) (errors w ++ [e]) (scrolls w).

Definition scrollTo (p : Scroll) (w : World T) : World T :=
  mkWorld (ui w) (clock w) (timers w) (selected w) (errors w) (scrolls w ++ [p]).

Definition isDue (t : nat) (tm : Timer) : bool := (due tm <=? t)%nat.

(** Advance the clock to [t] and take the timers that are due out of the
    queue; they are returned in the order in which they fire. *)
Definition advance (t : nat) (w : World T) : list Timer * World T :=
  (List.filter (isDue t) (timers w),
   mkWorld (ui w) t (List.filter (fun tm => negb (isDue t tm)) (timers w))
           (selected w) (errors w) (scrolls w)).

(** The state of a freshly mounted component. *)
Definition mount : World T :=
  mkWorld (mkState (FStr "") false [] 0%Z) 0 [] [] [] [].
End Setters.

(** ** [src/components/autocomplete/index.tsx] *)

Module TimeoutVariant.
Section Component.
Context {T : Type} (P : Props T).

(** The callback given to [setTimeout] in [handleOnChange]. *)
Definition onTimeout (input : string) (w : World T) : World T :=
  match filterData P input with
  | JS.Throw e => raise (Uncaught e) w
  | JS.Normal filtered => setSuggestions filtered (setShowSuggestions true w)
  end.

Definition handleOnChange (input : string) (w : World T) : World T :=
  let w := setValue (FStr input) w in
  let w := setActiveSuggestion (fun _ => 0%Z) w in
  if String.eqb input "" then setShowSuggestions false w
  else setTimeout input 1000 w.

(** [suggestionsList] is the [<ul>], which exists when the list was
    rendered; the test on [e.target.value.length > -1] always holds.
    [activeSuggestion] and [suggestions] are the values of the render in
    which the handler was created. *)
Definition onKeyDown (key : Key) (w : World T) : World T :=
  let activeSuggestion := activeSuggestion (ui w) in
  let suggestions := suggestions (ui w) in
  let suggestionsList := showSuggestions (ui w) in
  let len := Z.of_nat (List.length suggestions) in
  if Key_eqb key ArrowUp && negb (activeSuggestion =? 0)%Z then
    let w := setActiveSuggestion (fun prev => prev - 1)%Z w in
    if suggestionsList && (2 * activeSuggestion <=? len)%Z
    then scrollTo ScrollTop w else w
  else if Key_eqb key ArrowDown && (activeSuggestion <? len - 1)%Z then
    let w := setActiveSuggestion (fun prev => prev + 1)%Z w in
    if suggestionsList && (len <=? 2 * activeSuggestion)%Z
    then scrollTo ScrollBottom w else w
  else if Key_eqb key Escape then
    setValue (FStr "") (setShowSuggestions false w)
  else if Key_eqb key Enter then
    let w := setShowSuggestions false w in
    match JS.index suggestions activeSuggestion with
    | None => raise (Uncaught JS.TypeError) w
    | Some item =>
        let w := setValue (filterField P item) w in
        if setSelectedItem P then callHost item w else w
    end
  else w.

Definition onSetSuggestion (item : T) (w : World T) : World T :=
  let w := setShowSuggestions false w in
  let w := setValue (filterField P item) w in
  if setSelectedItem P then callHost item w else w.

Definition onSuggestionItemHover (index : Z) (w : World T) : World T :=
  setActiveSuggestion (fun _ => index) w.

(** The handler passed to [useOnClickOutside]. *)
Definition onClickOutside (w : World T) : World T :=
  setShowSuggestions false w.

(** The [k]-th [<li>] with handlers, when the list is rendered and has one. *)
Definition rendered (k : nat) (w : World T) : option T :=
  if showSuggestions (ui w) then nth_error (suggestions (ui w)) k else None.

Definition dispatch (ev : Event) (w : World T) : World T :=
  match ev with
  | Change input => handleOnChange input w
  | KeyDown key => onKeyDown key w
  | ItemClick k =>
      match rendered k w with
      | Some suggestion => onSetSuggestion suggestion w
      | None => w
      end
  | ItemEnter k =>
      match rendered k w with
      | Some suggestion =>
          onSuggestionItemHover
            (JS.indexOf (sameItem P) (suggestions (ui w)) suggestion) w
      | None => w
      end
  | OutsideClick => onClickOutside w
  | Elapse ms =>
      let '(fired, w) := advance (clock w + ms) w in
      fold_left (fun w tm => onTimeout (captured tm) w) fired w
  end.

Definition run (evs : list Event) (w : World T) : World T :=
  fold_left (fun w ev => dispatch ev w) evs w.
End Component.
End TimeoutVariant.

(** ** The version with [filterDataAsync] *)

Module PromiseVariant.

(** A settled promise. *)
Inductive Settled (A : Type) : Type :=
| Fulfilled (a : A)
| Rejected (e : JS.Exn).
Arguments Fulfilled {A} a.
Arguments Rejected {A} e.

Section Component.
Context {T : Type} (P : Props T).

(** What the promise of [filterDataAsync filterValue] settles to when its
    timer fires: the [try] resolves it, the [catch] rejects it. *)
Definition filterDataAsync (filterValue : string) : Settled (list T) :=
  match filterData P filterValue with
  | JS.Normal filteredData => Fulfilled filteredData
  | JS.Throw error => Rejected error
  end.

(** The [then] and [catch] callbacks of [handleOnChange], run when the
    promise settles; the [catch] callback throws [Error(error)], so the
    promise it returns is rejected with that new error and nothing handles
    it. *)
Definition onSettled (p : Settled (list T)) (w : World T) : World T :=
  match p with
  | Fulfilled data => setSuggestions data (setShowSuggestions true w)
  | Rejected error => raise (UnhandledRejection (JS.ErrorOf error)) w
  end.

Definition onTimeout (input : string) (w : World T) : World T :=
  onSettled (filterDataAsync input) w.

Definition handleOnChange (input : string) (w : World T) : World T :=
  let w := setValue (FStr input) w in
  let w := setActiveSuggestion (fun _ => 0%Z) w in
  if String.eqb input "" then setShowSuggestions false w
  else setTimeout input 1000 w.

(** [value !== ""] on the state cell. *)
Definition nonEmptyValue (v : FieldValue) : bool :=
  match v with
  | FStr s => negb (String.eqb s "")
  | FOther => true
  end.

Definition onKeyDown (key : Key) (w : World T) : World T :=
  let value := value (ui w) in
  let activeSuggestion := activeSuggestion (ui w) in
  let suggestions := suggestions (ui w) in
  let suggestionsList := showSuggestions (ui w) in
  let len := Z.of_nat (List.length suggestions) in
  if Key_eqb key ArrowUp && negb (activeSuggestion =? 0)%Z then
    let w := setActiveSuggestion (fun prev => prev - 1)%Z w in
    if suggestionsList && (2 * activeSuggestion <=? len)%Z
    then scrollTo ScrollTop w else w
  else if Key_eqb key ArrowDown && (activeSuggestion <? len - 1)%Z then
    let w := setActiveSuggestion (fun prev => prev + 1)%Z w in
    if suggestionsList && (len <=? 2 * activeSuggestion)%Z
    then scrollTo ScrollBottom w else w
  else if Key_eqb key Escape then
    setValue (FStr "") (setShowSuggestions false w)
  else if Key_eqb key Enter && nonEmptyValue value && (0 <? len)%Z then
    let w := setShowSuggestions false w in
    match JS.index suggestions activeSuggestion with
    | None => raise (Uncaught JS.TypeError) w
    | Some item =>
        let w := setValue (filterField P item) w in
        if setSelectedItem P then callHost item w else w
    end
  else w.

Definition onSetSuggestion (item : T) (w : World T) : World T :=
  let w := setShowSuggestions false w in
  let w := setValue (filterField P item) w in
  if setSelectedItem P then callHost item w else w.

Definition onSuggestionItemHover (index : Z) (w : World T) : World T :=
  setActiveSuggestion (fun _ => index) w.

Definition onClickOutside (w : World T) : World T :=
  setShowSuggestions false w.

Definition rendered (k : nat) (w : World T) : option T :=
  if showSuggestions (ui w) then nth_error (suggestions (ui w)) k else None.

Definition dispatch (ev : Event) (w : World T) : World T :=
  match ev with
  | Change input => handleOnChange input w
  | KeyDown key => onKeyDown key w
  | ItemClick k =>
      match rendered k w with
      | Some suggestion => onSetSuggestion suggestion w
      | None => w
      end
  | ItemEnter k =>
      match rendered k w with
      | Some suggestion =>
          onSuggestionItemHover
            (JS.indexOf (sameItem P) (suggestions (ui w)) suggestion) w
      | None => w
      end
  | OutsideClick => onClickOutside w
  | Elapse ms =>
      let '(fired, w) := advance (clock w + ms) w in
      fold_left (fun w tm => onTimeout (captured tm) w) fired w
  end.

Definition run (evs : list Event) (w : World T) : World T :=
  fold_left (fun w ev => dispatch ev w) evs w.
End Component.
End PromiseVariant.

(** ** Pokemon characters, the items of the demo page *)

Record PokemonCharacter : Type := mkPokemon { name : string; url : string }.

Definition PokemonCharacter_eqb (a b : PokemonCharacter) : bool :=
  String.eqb (name a) (name b) && String.eqb (url a) (url b).

(** The page of the Pokemon characters.  Two entries of [l] are taken for
    the same object when their name and url agree. *)
Definition pokemonProps (l : list PokemonCharacter) : Props PokemonCharacter :=
  mkProps l true (fun item => FStr (name item)) PokemonCharacter_eqb.

Definition bulbasaur := mkPokemon "bulbasaur" "https://pokeapi.co/api/v2/pokemon/1/".
Definition ivysaur := mkPokemon "ivysaur" "https://pokeapi.co/api/v2/pokemon/2/".
Definition venusaur := mkPokemon "venusaur" "https://pokeapi.co/api/v2/pokemon/3/".
Definition onix := mkPokemon "onix" "https://pokeapi.co/api/v2/pokemon/95/".

(** ** The highlighter *)

Module RegExp.

(** The patterns the model covers: ordinary characters and the dot.  A source
    with any other character that the pattern syntax treats specially is
    outside the fragment. *)
Inductive Atom : Type :=
| Lit (c : ascii)
| AnyChar.

Definition Pattern := list Atom.

(** The syntax characters of a pattern other than the dot. *)
Definition isSyntax (c : ascii) : bool :=
  existsb (Ascii.eqb c)
    ["\"; "^"; "$"; "*"; "+"; "?"; "("; ")"; "["; "]"; "{"; "}"; "|"]%char.

Definition isDot (c : ascii) : bool := Ascii.eqb c "."%char.

(** [new RegExp(source, "gi")] for a source of ordinary characters and dots.
    [None] stands for every other source: the constructor then throws a
    [SyntaxError] or builds a pattern that this fragment does not cover, and
    the model says nothing about either. *)
Fixpoint compile (source : string) : option Pattern :=
  match source with
  | EmptyString => Some []
  | String c rest =>
      if isSyntax c then None
      else match compile rest with
           | None => None
           | Some p => Some ((if isDot c then AnyChar else Lit c) :: p)
           end
  end.

(** Case folding of the [i] flag, as a code unit: the upper case of the
    character when that is one code unit, the character itself otherwise.
    The upper case of 255 is 376 and that of the micro sign 181 is 924; the
    upper case of the sharp s 223 is two characters, so it stays. *)
Definition canonicalize (c : ascii) : nat :=
  let n := nat_of_ascii c in
  if JS.isLower c then n - 32
  else if (n =? 255)%nat then 376
  else if (n =? 181)%nat then 924
  else n.

Definition isLineTerminator (c : ascii) : bool :=
  Ascii.eqb c "010"%char || Ascii.eqb c "013"%char.

Definition atomMatches (a : Atom) (c : ascii) : bool :=
  match a with
  | Lit x => Nat.eqb (canonicalize x) (canonicalize c)
  | AnyChar => negb (isLineTerminator c)
  end.

(** Match the pattern at the start of [s]: the text after the match. *)
Fixpoint matchAt (p : Pattern) (s : string) : option string :=
  match p, s with
  | [], _ => Some s
  | _ :: _, EmptyString => None
  | a :: p', String c s' => if atomMatches a c then matchAt p' s' else None
  end.

(** [regex.test(s)] from [lastIndex = 0]. *)
Fixpoint test (p : Pattern) (s : string) : bool :=
  match matchAt p s with
  | Some _ => true
  | None =>
      match s with
      | EmptyString => false
      | String _ s' => test p s'
      end
  end.

(** [s.replace(regex, replacement)] for a global [regex]: every match, found
    from left to right after the end of the previous one, is replaced.  [skip]
    counts the characters of the current match that are still to be dropped;
    after an empty match the scan moves on by one character. *)
Fixpoint replaceFrom (p : Pattern) (replacement : string) (skip : nat) (s : string)
  : string :=
  match skip with
  | S k =>
      match s with
      | EmptyString => EmptyString
      | String _ s' => replaceFrom p replacement k s'
      end
  | O =>
      match matchAt p s with
      | Some _ =>
          replacement ++
          match s with
          | EmptyString => EmptyString
          | String c s' =>
              match List.length p with
              | O => String c (replaceFrom p replacement 0 s')
              | S k => replaceFrom p replacement k s'
              end
          end
      | None =>
          match s with
          | EmptyString => EmptyString
          | String c s' => String c (replaceFrom p replacement 0 s')
          end
      end
  end.

Definition replace (s : string) (p : Pattern) (replacement : string) : string :=
  replaceFrom p replacement 0 s.

End RegExp.

(** What the highlighter returns: a [<div>] whose markup is the given string,
    or a [<div>] with the given text. *)
Inductive Rendered : Type :=
| InnerHTML (html : string)
| PlainText (text : string).

Definition doubleQuote : string := String (ascii_of_nat 34) EmptyString.

(** The template literal of the replacement. *)
Definition emphasis (searchValue : string) : string :=
  "<span style=" ++ doubleQuote ++ "background-color: yellow" ++ doubleQuote ++ ">"
  ++ searchValue ++ "</span>".

(** [HighlightSearchValue], the same in both versions; [None] when
    [searchValue] is outside the modelled patterns. *)
Definition HighlightSearchValue (searchValue value : string) : option Rendered :=
  match RegExp.compile searchValue with
  | None => None
  | Some regex =>
      let isSearchValueFound := RegExp.test regex value in
      if isSearchValueFound then
        let highlightedCountry := RegExp.replace value regex (emphasis searchValue) in
        Some (InnerHTML highlightedCountry)
      else Some (PlainText value)
  end.

(** ** The words of the specification *)

(** The code units of the capital letters below 256. *)
Definition UpperCode (n : nat) : Prop :=
  (65 <= n <= 90)%nat \/ ((192 <= n <= 222)%nat /\ n <> 215%nat).

(** Two characters that differ at most in letter case: a capital letter has
    its small letter 32 code units above it. *)
Inductive SameLetter : ascii -> ascii -> Prop :=
| same_char c : SameLetter c c
| upper_lower n : UpperCode n ->
    SameLetter (ascii_of_nat n) (ascii_of_nat (n + 32))
| lower_upper n : UpperCode n ->
    SameLetter (ascii_of_nat (n + 32)) (ascii_of_nat n).

(** Two strings that are equal up to letter case. *)
Inductive EqIgnoreCase : string -> string -> Prop :=
| eic_nil : EqIgnoreCase "" ""
| eic_cons a b s t :
    SameLetter a b -> EqIgnoreCase s t -> EqIgnoreCase (String a s) (String b t).

(** [q] is a case-insensitive substring of [v]. *)
Definition ContainsIgnoreCase (v q : string) : Prop :=
  exists pre mid post, v = pre ++ mid ++ post /\ EqIgnoreCase mid q.

(** The field value of an item is a string that contains [q]. *)
Definition Matches {T : Type} (P : Props T) (q : string) (item : T) : Prop :=
  exists v, filterField P item = FStr v /\ ContainsIgnoreCase v q.

(** [r] is [l] restricted to the items that satisfy [M]: every one of them,
    no other, in the order of [l]. *)
Inductive Select {T : Type} (M : T -> Prop) : list T -> list T -> Prop :=
| select_nil : Select M [] []
| select_keep x l r : M x -> Select M l r -> Select M (x :: l) (x :: r)
| select_drop x l r : ~ M x -> Select M l r -> Select M (x :: l) r.

(** The filter field of every item holds a string, as the data model asks. *)
Definition WellTyped {T : Type} (P : Props T) : Prop :=
  Forall (fun item => exists v, filterField P item = FStr v) (data P).

(** How a transition that hides the suggestion list may look: the query
    became empty, Escape cleared it, a click outside left it alone, or an
    item was committed by Enter or by a click on it. *)
Definition HidingOutcome {T : Type} (P : Props T) (ev : Event) (w w' : World T)
  : Prop :=
  (ev = Change "" /\ value (ui w') = FStr "" /\ selected w' = selected w)
  \/ (ev = KeyDown Escape /\ value (ui w') = FStr "" /\ selected w' = selected w)
  \/ (ev = OutsideClick /\ value (ui w') = value (ui w) /\ selected w' = selected w)
  \/ (exists item,
        (ev = KeyDown Enter /\
         JS.index (suggestions (ui w)) (activeSuggestion (ui w)) = Some item
         \/ exists k, ev = ItemClick k /\ nth_error (suggestions (ui w)) k = Some item)
        /\ value (ui w') = filterField P item
        /\ selected w'
           = (selected w ++ (if setSelectedItem P then [item] else []))%list).

(** The world after [item] was committed in [w]. *)
Definition committed {T : Type} (P : Props T) (item : T) (w : World T) : World T :=
  mkWorld (mkState (filterField P item) false (suggestions (ui w))
                   (activeSuggestion (ui w)))
          (clock w) (timers w)
          (selected w ++ (if setSelectedItem P then [item] else []))
          (errors w) (scrolls w).

(** A page whose filter key names a field that holds no string, such as
    [count] of the Pokemon response. *)
Definition untypedProps (l : list PokemonCharacter) : Props PokemonCharacter :=
  mkProps l true (fun _ => FOther) PokemonCharacter_eqb.

Definition pokedex : list PokemonCharacter := [bulbasaur; ivysaur; venusaur; onix].

(** A query without pattern syntax: every character stands for itself. *)
Fixpoint isLiteral (q : string) : bool :=
  match q with
  | EmptyString => true
  | String c q' => negb (RegExp.isSyntax c) && negb (RegExp.isDot c) && isLiteral q'
  end.

(** [v] starts with a text equal to [q] up to letter case. *)
Definition StartsIgnoreCase (v q : string) : Prop :=
  exists mid rest, v = mid ++ rest /\ EqIgnoreCase mid q.






(** The pattern of a literal query. *)
Fixpoint literals (q : string) : RegExp.Pattern :=
  match q with
  | EmptyString => []
  | String c q' => RegExp.Lit c :: literals q'
  end.

Definition onixVisible : World PokemonCharacter :=
  mkWorld (mkState (FStr "on") true [onix] 0%Z) 1000 [] [] [] [].

(** ** The rendered list *)

(** One [<li>] of the list: a suggestion with its [active] class and the
    output of the highlighter, or the placeholder. *)
Inductive ListEntry (T : Type) : Type :=
| SuggestionEntry (suggestion : T) (active : bool) (content : option Rendered)
| NoResultsEntry.
Arguments SuggestionEntry {T}.
Arguments NoResultsEntry {T}.

(** [<HighlightSearchValue value={suggestion[filterField]} searchValue={value}/>];
    the highlighter is modelled on strings only. *)
Definition highlightCell (searchValue value : FieldValue) : option Rendered :=
  match searchValue, value with
  | FStr q, FStr v => HighlightSearchValue q v
  | _, _ => None
  end.

(** The [<ul>] of the JSX, the same in both versions: absent while
    [showSuggestions] is false, the placeholder for an empty list, else one
    entry per suggestion, active when [suggestions.indexOf(suggestion)] is the
    cursor. *)
Definition renderList {T : Type} (P : Props T) (s : State T)
  : option (list (ListEntry T)) :=
  if showSuggestions s then
    Some (match suggestions s with
          | [] => [NoResultsEntry]
          | _ :: _ =>
              map (fun suggestion =>
                     SuggestionEntry suggestion
                       (JS.indexOf (sameItem P) (suggestions s) suggestion
                        =? activeSuggestion s)%Z
                       (highlightCell (value s) (filterField P suggestion)))
                  (suggestions s)
          end)
  else None.

(** ** [useOnClickOutside] and the mouse *)

(** [handleListener], the [mousedown] listener of the hook: [attached] says
    that [ref.current] is set, [inside] that it contains the target. *)
Definition handleListener {T : Type} (attached inside : bool)
  (handler : World T -> World T) (w : World T) : World T :=
  if negb attached || inside then w else handler w.

(** Where the mouse can go down: the elements the component renders inside
    its container, or anywhere else in the document. *)
Inductive Element : Type :=
| InputBox
| SuggestionRow (k : nat)
| Placeholder
| Elsewhere.

Definition insideContainer (e : Element) : bool :=
  match e with
  | Elsewhere => false
  | _ => true
  end.

(** A full click with the component mounted: the [mousedown] reaches the
    listener of the hook, then the [click] reaches the handler of the
    element.  [onInputClick] only stops the propagation of the click. *)
Definition clickGesture {T : Type} (d : Event -> World T -> World T)
  (e : Element) (w : World T) : World T :=
  let w := handleListener true (insideContainer e) (d OutsideClick) w in
  match e with
  | SuggestionRow k => d (ItemClick k) w
  | _ => w
  end.

(** ** [useFetch] *)

Module UseFetch.

(** How one run of [fetchData] ends: the response is ok and its body parses,
    the response is not ok, or [fetch] or [json] rejects with [e]. *)
Inductive Outcome (A E : Type) : Type :=
| Parsed (body : A)
| NotOk
| Failed (e : E).
Arguments Parsed {A E}.
Arguments NotOk {A E}.
Arguments Failed {A E}.

(** What the [catch] receives: [new Error("Network error!")] or [e]. *)
Inductive Caught (E : Type) : Type :=
| NetworkError
| Thrown (e : E).
Arguments NetworkError {E}.
Arguments Thrown {E}.

Record FetchData (A E : Type) : Type := mkFetchData {
  data : option A;
  isLoading : bool;
  error : option (Caught E)
}.
Arguments mkFetchData {A E}.
Arguments data {A E}.
Arguments isLoading {A E}.
Arguments error {A E}.

(** The initial values of the three [useState] cells. *)
Definition initial {A E : Type} : FetchData A E := mkFetchData None true None.

(** The state updates of one run of [fetchData]. *)
Definition fetchData {A E : Type} (o : Outcome A E) (s : FetchData A E)
  : FetchData A E :=
  match o with
  | Parsed body => mkFetchData (Some body) false (error s)
  | NotOk => mkFetchData (data s) false (Some NetworkError)
  | Failed e => mkFetchData (data s) false (Some (Thrown e))
  end.

(** The effect runs again for every new [url]; [outcomes] are the runs in
    the order in which they end. *)
Definition useFetch {A E : Type} (outcomes : list (Outcome A E)) : FetchData A E :=
  fold_left (fun s o => fetchData o s) outcomes initial.

(** The body of the last run that parsed, and what the last failed run
    caught. *)
Fixpoint lastParsed {A E : Type} (outcomes : list (Outcome A E)) : option A :=
  match outcomes with
  | [] => None
  | o :: rest =>
      match lastParsed rest, o with
      | Some b, _ => Some b
      | None, Parsed body => Some body
      | None, _ => None
      end
  end.

Fixpoint lastCaught {A E : Type} (outcomes : list (Outcome A E))
  : option (Caught E) :=
  match outcomes with
  | [] => None
  | o :: rest =>
      match lastCaught rest, o with
      | Some c, _ => Some c
      | None, NotOk => Some NetworkError
      | None, Failed e => Some (Thrown e)
      | None, Parsed _ => None
      end
  end.

End UseFetch.

(** ** The countries page *)

Module CountriesApp.

Record Country : Type := mkCountry {
  common : string;
  countryOfficial : string;
  flag : string;
  population : Z;
  countryRegion : string;
  countryCca2 : string
}.

Record CountryData : Type := mkCountryData {
  name : string;
  official : string;
  cca2 : string;
  region : string
}.

(** The object pushed for the country [d]. *)
Definition entry (d : Country) : CountryData :=
  mkCountryData (common d) (countryOfficial d) (countryCca2 d) (countryRegion d).

(** The effect on [data]: the array [countries] is filled by [push] in the
    order of [data] and handed to [setCountries]. *)
Definition countriesOf (fetched : option (list Country)) : list CountryData :=
  match fetched with
  | Some (d :: rest) =>
      fold_left (fun countries d => countries ++ [entry d])%list (d :: rest) []
  | _ => []
  end.

Definition CountryData_eqb (a b : CountryData) : bool :=
  String.eqb (name a) (name b) && String.eqb (official a) (official b)
  && String.eqb (cca2 a) (cca2 b) && String.eqb (region a) (region b).

(** The properties [App] passes to [Autocomplete], with [filterField="name"]. *)
Definition props (fetched : option (list Country)) : Props CountryData :=
  mkProps (countriesOf fetched) true (fun item => FStr (name item)) CountryData_eqb.

End CountriesApp.

(** ** Invariants of the running component *)

(** The pending timers are due within the next second, each was started for
    a non-empty input, and the queue is ordered by due time. *)
Definition TimersOk {T : Type} (w : World T) : Prop :=
  Forall (fun tm => clock w < due tm <= clock w + 1000 /\ captured tm <> "")
         (timers w)
  /\ StronglySorted (fun a b => due a <= due b) (timers w).

(** What every event keeps: the text is a string, the suggestions and the
    items given to the host are items of [data] whose filter field holds a
    string, and the cursor is not negative. *)
Definition Invariant {T : Type} (P : Props T) (w : World T) : Prop :=
  (exists s, value (ui w) = FStr s)
  /\ Forall (fun x => In x (data P) /\ exists v, filterField P x = FStr v)
            (suggestions (ui w))
  /\ Forall (fun x => In x (data P) /\ exists v, filterField P x = FStr v)
            (selected w)
  /\ (0 <= activeSuggestion (ui w))%Z
  /\ TimersOk w.

(** The cursor is a position of the list, when the list is not empty. *)
Definition CursorInList {T : Type} (s : State T) : Prop :=
  suggestions s <> [] ->
  (0 <= activeSuggestion s < Z.of_nat (List.length (suggestions s)))%Z.

(** The rendering stays inside the model: the highlighter is defined on
    every entry of the list, so [new RegExp] is given a pattern of the
    fragment, which is a valid pattern, and a string to search. *)
Definition RendersWithin {T : Type} (P : Props T) (s : State T) : Prop :=
  forall entries,
    renderList P s = Some entries ->
    Forall (fun e => match e with
                     | SuggestionEntry _ _ None => False
                     | _ => True
                     end) entries.

(** [sameItem] is the identity of items, as [===] on objects. *)
Definition IsIdentity {T : Type} (P : Props T) : Prop :=
  forall x y, sameItem P x y = true <-> x = y.

(** What the timer callback does in either version, up to the kind of host
    error [mk] a throwing filter ends in. *)
Definition settle {T : Type} (P : Props T) (mk : JS.Exn -> HostError)
  (input : string) (w : World T) : World T :=
  match filterData P input with
  | JS.Throw e => raise (mk e) w
  | JS.Normal filtered => setSuggestions filtered (setShowSuggestions true w)
  end.

(** The timers that fire when [ms] milliseconds pass, and the world they
    fire in. *)
Definition firing {T : Type} (ms : nat) (w : World T) : list Timer :=
  fst (advance (clock w + ms) w).

Definition afterAdvance {T : Type} (ms : nat) (w : World T) : World T :=
  snd (advance (clock w + ms) w).

(** The Aland Islands of the countries response: the name begins with the
    capital A with ring, code unit 197, whose small letter is 229. *)
Definition capitalARing : string := String (ascii_of_nat 197) EmptyString.
Definition smallARing : string := String (ascii_of_nat 229) EmptyString.

Definition aland : CountriesApp.Country :=
  CountriesApp.mkCountry (capitalARing ++ "land Islands")
                         (capitalARing ++ "land Islands") "" 29458 "Europe" "AX".

Definition finland : CountriesApp.Country :=
  CountriesApp.mkCountry "Finland" "Republic of Finland" "" 5530719 "Europe" "FI".

(** [n] copies of [s], and a text without line terminators. *)
Fixpoint repeatString (n : nat) (s : string) : string :=
  match n with
  | O => ""
  | S n' => s ++ repeatString n' s
  end.

Fixpoint singleLine (v : string) : bool :=
  match v with
  | EmptyString => true
  | String c v' => negb (RegExp.isLineTerminator c) && singleLine v'
  end.

(** ** Strings *)

Section StringFacts.

Lemma append_nil_r (s : string) : s ++ "" = s.
Proof. induction s; simpl; congruence. Qed.

Lemma append_assoc (a b c : string) : (a ++ b) ++ c = a ++ b ++ c.
Proof. induction a; simpl; congruence. Qed.


Lemma startsWith_spec (s t : string) :
  JS.startsWith s t = true <-> exists post, s = t ++ post.
Proof.
  revert s; induction t as [|b t IH]; intros s; simpl.
  - split; [intros _; now exists s | reflexivity].
  - destruct s as [|a s].
    + split; [discriminate | intros [post H]; discriminate].
    + rewrite andb_true_iff, Ascii.eqb_eq, IH. split.
      * intros [-> [post ->]]. now exists post.
      * intros [post H]. injection H as -> ->. eauto.
Qed.

Lemma includes_spec (s t : string) :
  JS.includes s t = true <-> exists pre post, s = pre ++ t ++ post.
Proof.
  induction s as [|a s IH]; simpl; rewrite orb_true_iff, startsWith_spec.
  - split.
    + intros [[post H] | H]; [|discriminate]. now exists "", post.
    + intros [[|c pre] [post H]]; [left; eauto | discriminate].
  - rewrite IH. split.
    + intros [[post H] | [pre [post ->]]].
      * now exists "", post.
      * now exists (String a pre), post.
    + intros [[|c pre] [post H]].
      * left; eauto.
      * right. injection H as -> ->. eauto.
Qed.

Lemma nat_of_ascii_lt (c : ascii) : nat_of_ascii c < 256.
Proof. apply nat_ascii_bounded. Qed.

Lemma ascii_of_nat_inj (n m : nat) :
  n < 256 -> m < 256 -> ascii_of_nat n = ascii_of_nat m -> n = m.
Proof.
  intros Hn Hm H.
  rewrite <- (nat_ascii_embedding n Hn), <- (nat_ascii_embedding m Hm).
  now rewrite H.
Qed.

Lemma isUpper_iff (c : ascii) :
  JS.isUpper c = true <-> UpperCode (nat_of_ascii c).
Proof.
  unfold JS.isUpper, UpperCode.
  rewrite orb_true_iff, !andb_true_iff, negb_true_iff, !Nat.leb_le, Nat.eqb_neq.
  tauto.
Qed.

Lemma lowerChar_upper (n : nat) :
  UpperCode n -> JS.lowerChar (ascii_of_nat n) = ascii_of_nat (n + 32).
Proof.
  intros H. unfold JS.lowerChar.
  assert (E : nat_of_ascii (ascii_of_nat n) = n)
    by (apply nat_ascii_embedding; unfold UpperCode in H; lia).
  destruct (JS.isUpper (ascii_of_nat n)) eqn:U.
  - now rewrite E.
  - exfalso. assert (JS.isUpper (ascii_of_nat n) = true)
      by (apply isUpper_iff; now rewrite E). congruence.
Qed.

Lemma lowerChar_lower (n : nat) :
  UpperCode n -> JS.lowerChar (ascii_of_nat (n + 32)) = ascii_of_nat (n + 32).
Proof.
  intros H. unfold JS.lowerChar.
  destruct (JS.isUpper (ascii_of_nat (n + 32))) eqn:U; [|reflexivity].
  apply isUpper_iff in U. unfold UpperCode in *.
  rewrite nat_ascii_embedding in U; lia.
Qed.

Lemma lowerChar_eq_iff (a b : ascii) :
  JS.lowerChar a = JS.lowerChar b <-> SameLetter a b.
Proof.
  split.
  - unfold JS.lowerChar. intros H.
    pose proof (nat_of_ascii_lt a) as La. pose proof (nat_of_ascii_lt b) as Lb.
    destruct (JS.isUpper a) eqn:Ua, (JS.isUpper b) eqn:Ub.
    + apply isUpper_iff in Ua, Ub.
      apply ascii_of_nat_inj in H; try (unfold UpperCode in *; lia).
      assert (E : nat_of_ascii a = nat_of_ascii b) by lia.
      rewrite <- (ascii_nat_embedding a), <- (ascii_nat_embedding b), E.
      constructor.
    + apply isUpper_iff in Ua.
      pose proof (upper_lower (nat_of_ascii a) Ua) as S.
      rewrite ascii_nat_embedding in S. now rewrite <- H.
    + apply isUpper_iff in Ub.
      pose proof (lower_upper (nat_of_ascii b) Ub) as S.
      rewrite ascii_nat_embedding in S. now rewrite H.
    + subst. constructor.
  - intros [c | n H | n H].
    + reflexivity.
    + now rewrite (lowerChar_upper n H), (lowerChar_lower n H).
    + now rewrite (lowerChar_upper n H), (lowerChar_lower n H).
Qed.

Lemma toLowerCase_eq_iff (s t : string) :
  JS.toLowerCase s = JS.toLowerCase t <-> EqIgnoreCase s t.
Proof.
  split.
  - revert t; induction s as [|a s IH]; intros [|b t] H; simpl in H;
      try discriminate.
    + constructor.
    + injection H as H1 H2. constructor; [now apply lowerChar_eq_iff | auto].
  - induction 1 as [|a b s t Hab _ IH]; simpl; [reflexivity|].
    apply lowerChar_eq_iff in Hab. congruence.
Qed.

Lemma toLowerCase_app (a b : string) :
  JS.toLowerCase (a ++ b) = JS.toLowerCase a ++ JS.toLowerCase b.
Proof. induction a; simpl; congruence. Qed.

Lemma toLowerCase_split (v a b : string) :
  JS.toLowerCase v = a ++ b ->
  exists v1 v2, v = v1 ++ v2 /\ JS.toLowerCase v1 = a /\ JS.toLowerCase v2 = b.
Proof.
  revert v; induction a as [|c a IH]; intros v H; simpl in H.
  - now exists "", v.
  - destruct v as [|d v]; simpl in H; [discriminate|].
    injection H as H1 H2. destruct (IH _ H2) as (v1 & v2 & -> & E1 & E2).
    exists (String d v1), v2. simpl. repeat split; congruence.
Qed.

(** The test of the filter callback is the containment of the specification. *)
Lemma includes_toLowerCase_iff (v q : string) :
  JS.includes (JS.toLowerCase v) (JS.toLowerCase q) = true
  <-> ContainsIgnoreCase v q.
Proof.
  rewrite includes_spec. split.
  - intros (pre & post & H).
    apply toLowerCase_split in H as (v1 & v2 & -> & _ & H).
    apply toLowerCase_split in H as (m & v3 & -> & H & _).
    exists v1, m, v3. split; [reflexivity | now apply toLowerCase_eq_iff].
  - intros (pre & mid & post & -> & H). apply toLowerCase_eq_iff in H.
    exists (JS.toLowerCase pre), (JS.toLowerCase post).
    now rewrite !toLowerCase_app, H.
Qed.

End StringFacts.

(** ** The filter *)

Section FilterFacts.
Context {T : Type} (P : Props T).

Lemma filter_select (q : string) (l : list T) :
  Forall (fun item => exists v, filterField P item = FStr v) l ->
  exists r, JS.filter (matchesInput P q) l = JS.Normal r
            /\ Select (Matches P q) l r.
Proof.
  induction 1 as [|x l [v Hv] _ [r [Hr Hs]]]; simpl.
  - exists []. split; [reflexivity | constructor].
  - unfold matchesInput at 1. rewrite Hv, Hr.
    destruct (JS.includes (JS.toLowerCase v) (JS.toLowerCase q)) eqn:E.
    + exists (x :: r). split; [reflexivity|]. apply select_keep; [|exact Hs].
      exists v. split; [exact Hv | now apply includes_toLowerCase_iff].
    + exists r. split; [reflexivity|]. apply select_drop; [|exact Hs].
      intros [v' [Hv' C]]. rewrite Hv in Hv'. injection Hv' as <-.
      apply includes_toLowerCase_iff in C. congruence.
Qed.

(** A selection keeps exactly the items that satisfy the test. *)
Lemma Select_In (M : T -> Prop) (l r : list T) :
  Select M l r -> forall x, In x r <-> In x l /\ M x.
Proof.
  induction 1 as [|x l r Hx _ IH|x l r Hx _ IH]; intros y; simpl.
  - tauto.
  - rewrite IH. split.
    + intros [<- | [H1 H2]]; auto.
    + intros [[<- | H1] H2]; auto.
  - rewrite IH. split.
    + intros [H1 H2]; auto.
    + intros [[<- | H1] H2]; [contradiction | auto].
Qed.

End FilterFacts.



(** The scenario of the specification: typing [on] over bulbasaur and onix. *)
Example filter_on :
  ui (TimeoutVariant.run (pokemonProps [bulbasaur; onix])
        [Change "on"; Elapse 1000] mount)
  = mkState (FStr "on") true [onix] 0%Z.
Proof. reflexivity. Qed.

Example filter_On_uppercase :
  filterData (pokemonProps [bulbasaur; onix]) "ON" = JS.Normal [onix].
Proof. reflexivity. Qed.

(** ** A failing filter request *)

Section Failure.
Context {T : Type} (P : Props T).

(** Whether the filter throws depends on the items, not on the query. *)
Lemma filter_throws_for_all (a b : string) (e : JS.Exn) (l : list T) :
  JS.filter (matchesInput P a) l = JS.Throw e ->
  JS.filter (matchesInput P b) l = JS.Throw e.
Proof.
  induction l as [|x l IH]; simpl; [discriminate|].
  unfold matchesInput at 1 3. destruct (filterField P x) as [v|].
  - destruct (JS.filter (matchesInput P a) l) as [r|e'] eqn:F; [discriminate|].
    intros H. injection H as ->. now rewrite IH.
  - auto.
Qed.

Lemma failing_timeouts_keep_ui (e : JS.Exn) (fired : list Timer) (w : World T) :
  (forall input, filterData P input = JS.Throw e) ->
  ui (fold_left (fun w tm => TimeoutVariant.onTimeout P (captured tm) w) fired w)
  = ui w
  /\ ui (fold_left (fun w tm => PromiseVariant.onTimeout P (captured tm) w) fired w)
     = ui w.
Proof.
  intros H. revert w; induction fired as [|tm fired IH]; intros w; simpl;
    [split; reflexivity|].
  unfold TimeoutVariant.onTimeout at 2, PromiseVariant.onTimeout at 2,
    PromiseVariant.filterDataAsync.
  rewrite H. simpl. destruct (IH (raise (Uncaught e) w)) as [E1 _].
  destruct (IH (raise (UnhandledRejection (JS.ErrorOf e)) w)) as [_ E2].
  now rewrite E1, E2.
Qed.

End Failure.

Lemma failing_timeouts_errors (T : Type) (P : Props T)
  (mk : JS.Exn -> HostError) (e : JS.Exn) (fired : list Timer) (w : World T) :
  (forall input, filterData P input = JS.Throw e) ->
  errors (fold_left
            (fun w tm =>
               match filterData P (captured tm) with
               | JS.Throw e => raise (mk e) w
               | JS.Normal filtered =>
                   setSuggestions filtered (setShowSuggestions true w)
               end) fired w)
  = (errors w ++ map (fun _ => mk e) fired)%list.
Proof.
  intros H. revert w; induction fired as [|tm fired IH]; intros w; simpl.
  - now rewrite app_nil_r.
  - rewrite H, IH. simpl. now rewrite <- app_assoc.
Qed.

Lemma promise_timeouts_as_match (T : Type) (P : Props T)
  (fired : list Timer) (w : World T) :
  fold_left (fun w tm => PromiseVariant.onTimeout P (captured tm) w) fired w
  = fold_left
      (fun w tm =>
         match filterData P (captured tm) with
         | JS.Throw e => raise (UnhandledRejection (JS.ErrorOf e)) w
         | JS.Normal filtered => setSuggestions filtered (setShowSuggestions true w)
         end) fired w.
Proof.
  revert w; induction fired as [|tm fired IH]; intros w; simpl; [reflexivity|].
  rewrite <- IH. f_equal.
  unfold PromiseVariant.onTimeout, PromiseVariant.filterDataAsync.
  now destruct (filterData P (captured tm)).
Qed.

(** C9, as the code has it: when the computation of the filtered list
    throws, the promise of the version with [filterDataAsync] is rejected and
    the [catch] callback throws a new error made from the exception, which
    ends as a rejection without handler; in [index.tsx] the exception leaves
    the timer callback uncaught.  Each failing request adds exactly that one
    error to those the page sees, delivered to the window and to no error
    boundary; the host callback is not called; and the component state is
    what it was before the request completed: neither [suggestions] nor
    [showSuggestions] nor any other cell changes, however many requests
    complete. *)
Theorem failed_filter_leaves_state
  {T : Type} (P : Props T) (input : string) (e : JS.Exn) (w : World T) :
  filterData P input = JS.Throw e ->
  PromiseVariant.filterDataAsync P input = PromiseVariant.Rejected e
  /\ errors (PromiseVariant.onTimeout P input w)
     = (errors w ++ [UnhandledRejection (JS.ErrorOf e)])%list
  /\ errors (TimeoutVariant.onTimeout P input w) = (errors w ++ [Uncaught e])%list
  /\ delivery (UnhandledRejection (JS.ErrorOf e)) = WindowUnhandledRejection
  /\ delivery (Uncaught e) = WindowError
  /\ ui (PromiseVariant.onTimeout P input w) = ui w
  /\ ui (TimeoutVariant.onTimeout P input w) = ui w
  /\ selected (PromiseVariant.onTimeout P input w) = selected w
  /\ selected (TimeoutVariant.onTimeout P input w) = selected w
  /\ forall ms,
       ui (PromiseVariant.dispatch P (Elapse ms) w) = ui w
       /\ ui (TimeoutVariant.dispatch P (Elapse ms) w) = ui w
       /\ errors (PromiseVariant.dispatch P (Elapse ms) w)
          = (errors w
             ++ map (fun _ => UnhandledRejection (JS.ErrorOf e))
                    (List.filter (isDue (clock w + ms)) (timers w)))%list
       /\ errors (TimeoutVariant.dispatch P (Elapse ms) w)
          = (errors w
             ++ map (fun _ => Uncaught e)
                    (List.filter (isDue (clock w + ms)) (timers w)))%list.
Proof.
  intros H.
  assert (A : forall i, filterData P i = JS.Throw e)
    by (intros i; exact (filter_throws_for_all P input i e (data P) H)).
  unfold PromiseVariant.onTimeout, PromiseVariant.filterDataAsync,
    TimeoutVariant.onTimeout.
  rewrite H. simpl. repeat split.
  - set (w' := snd (advance (clock w + ms) w)).
    destruct (failing_timeouts_keep_ui P e
                (List.filter (isDue (clock w + ms)) (timers w)) w' A) as [_ E].
    exact E.
  - set (w' := snd (advance (clock w + ms) w)).
    destruct (failing_timeouts_keep_ui P e
                (List.filter (isDue (clock w + ms)) (timers w)) w' A) as [E _].
    exact E.
  - rewrite promise_timeouts_as_match.
    now rewrite (failing_timeouts_errors T P _ e _ _ A).
  - unfold TimeoutVariant.onTimeout.
    now rewrite (failing_timeouts_errors T P Uncaught e _ _ A).
Qed.

Lemma failed_filter_leaves_state_witness :
  PromiseVariant.filterDataAsync (untypedProps pokedex) "on"
  = PromiseVariant.Rejected JS.TypeError
  /\ errors (PromiseVariant.onTimeout (untypedProps pokedex) "on" mount)
     = ([] ++ [UnhandledRejection (JS.ErrorOf JS.TypeError)])%list
  /\ errors (TimeoutVariant.onTimeout (untypedProps pokedex) "on" mount)
     = ([] ++ [Uncaught JS.TypeError])%list
  /\ delivery (UnhandledRejection (JS.ErrorOf JS.TypeError))
     = WindowUnhandledRejection
  /\ delivery (Uncaught JS.TypeError) = WindowError
  /\ ui (PromiseVariant.onTimeout (untypedProps pokedex) "on" mount) = ui mount
  /\ ui (TimeoutVariant.onTimeout (untypedProps pokedex) "on" mount) = ui mount
  /\ selected (PromiseVariant.onTimeout (untypedProps pokedex) "on" mount) = []
  /\ selected (TimeoutVariant.onTimeout (untypedProps pokedex) "on" mount) = []
  /\ forall ms,
       ui (PromiseVariant.dispatch (untypedProps pokedex) (Elapse ms) mount) = ui mount
       /\ ui (TimeoutVariant.dispatch (untypedProps pokedex) (Elapse ms) mount)
          = ui mount
       /\ errors (PromiseVariant.dispatch (untypedProps pokedex) (Elapse ms) mount)
          = ([] ++ map (fun _ => UnhandledRejection (JS.ErrorOf JS.TypeError))
                       (List.filter (isDue (0 + ms)) []))%list
       /\ errors (TimeoutVariant.dispatch (untypedProps pokedex) (Elapse ms) mount)
          = ([] ++ map (fun _ => Uncaught JS.TypeError)
                       (List.filter (isDue (0 + ms)) []))%list.
Proof.
  apply (failed_filter_leaves_state (untypedProps pokedex) "on" JS.TypeError mount).
  reflexivity.
Defined.

(** C9 as it is written fails: [on] is typed over candidates whose filter
    field holds no string.  The request fails and its error is reported to
    the window, as a rejection without handler or as an uncaught exception;
    nothing is delivered to an error boundary. *)
Lemma failed_filter_reaches_no_boundary :
  let P := untypedProps pokedex in
  let wp := PromiseVariant.run P [Change "on"; Elapse 1000] mount in
  let wt := TimeoutVariant.run P [Change "on"; Elapse 1000] mount in
  filterData P "on" = JS.Throw JS.TypeError
  /\ errors wp = [UnhandledRejection (JS.ErrorOf JS.TypeError)]
  /\ errors wt = [Uncaught JS.TypeError]
  /\ ~ (exists x, In x (errors wp) /\ delivery x = ErrorBoundary)
  /\ ~ (exists x, In x (errors wt) /\ delivery x = ErrorBoundary).
Proof.
  cbv zeta. repeat split.
  - intros (x & [<- | []] & D). discriminate.
  - intros (x & [<- | []] & D). discriminate.
Qed.

(** ** Committing and hiding *)

Ltac split_ifs :=
  repeat match goal with
         | |- context [if ?b then _ else _] => destruct b
         end.

Lemma index_Some_length {T : Type} (a : list T) (i : Z) (x : T) :
  JS.index a i = Some x -> (0 <= i < Z.of_nat (List.length a))%Z.
Proof.
  unfold JS.index. destruct (i <? 0)%Z eqn:E; [discriminate|].
  intros H. apply Z.ltb_ge in E.
  assert (L : Z.to_nat i < List.length a)
    by (apply nth_error_Some; congruence).
  lia.
Qed.

Lemma nonEmptyValue_true (v : FieldValue) :
  v <> FStr "" -> PromiseVariant.nonEmptyValue v = true.
Proof.
  destruct v as [s|]; simpl; [|reflexivity].
  intros H. destruct (String.eqb s "") eqn:E; [|reflexivity].
  apply String.eqb_eq in E. congruence.
Qed.

Lemma snoc_neq {A : Type} (l : list A) (x : A) : (l ++ [x])%list <> l.
Proof.
  intros H. apply (f_equal (@List.length A)) in H.
  rewrite length_app in H. simpl in H. lia.
Qed.

Section Timers.
Context {T : Type} (P : Props T).

Lemma timeouts_keep_visible (fired : list Timer) (w : World T) :
  showSuggestions (ui w) = true ->
  showSuggestions
    (ui (fold_left (fun w tm => TimeoutVariant.onTimeout P (captured tm) w) fired w))
  = true.
Proof.
  revert w; induction fired as [|tm fired IH]; intros w H; simpl; [exact H|].
  apply IH. unfold TimeoutVariant.onTimeout.
  destruct (filterData P (captured tm)); [reflexivity | exact H].
Qed.

Lemma settlements_keep_visible (fired : list Timer) (w : World T) :
  showSuggestions (ui w) = true ->
  showSuggestions
    (ui (fold_left (fun w tm => PromiseVariant.onTimeout P (captured tm) w) fired w))
  = true.
Proof.
  revert w; induction fired as [|tm fired IH]; intros w H; simpl; [exact H|].
  apply IH. unfold PromiseVariant.onTimeout, PromiseVariant.filterDataAsync.
  destruct (filterData P (captured tm)); [reflexivity | exact H].
Qed.

End Timers.

(** C10: in the version with the promise, Enter on an empty input text does
    nothing: the state is unchanged and the host callback is not called,
    whatever the suggestions are. *)
Theorem enter_on_empty_text_is_ignored
  {T : Type} (P : Props T) (w : World T) :
  value (ui w) = FStr "" -> PromiseVariant.onKeyDown P Enter w = w.
Proof.
  intros H. unfold PromiseVariant.onKeyDown. rewrite H. reflexivity.
Qed.

Lemma enter_on_empty_text_is_ignored_witness :
  PromiseVariant.onKeyDown (pokemonProps pokedex) Enter
    (mkWorld (mkState (FStr "") true [onix] 0%Z) 1000 [] [] [] [])
  = mkWorld (mkState (FStr "") true [onix] 0%Z) 1000 [] [] [] [].
Proof.
  apply (enter_on_empty_text_is_ignored (pokemonProps pokedex)
           (mkWorld (mkState (FStr "") true [onix] 0%Z) 1000 [] [] [] [])).
  reflexivity.
Defined.

(** In that version a commit by Enter needs both a non-empty text and a
    non-empty list. *)
Lemma enter_commits_only_on_text
  {T : Type} (P : Props T) (w : World T) :
  PromiseVariant.onKeyDown P Enter w <> w ->
  value (ui w) <> FStr "" /\ suggestions (ui w) <> [].
Proof.
  intros H. split; intros E; apply H; unfold PromiseVariant.onKeyDown;
    rewrite E; simpl; [reflexivity|].
  now rewrite andb_false_r.
Qed.

Lemma timeout_enter_commits
  {T : Type} (P : Props T) (w : World T) (item : T) :
  JS.index (suggestions (ui w)) (activeSuggestion (ui w)) = Some item ->
  TimeoutVariant.onKeyDown P Enter w = committed P item w.
Proof.
  intros H. unfold TimeoutVariant.onKeyDown. simpl. rewrite H.
  unfold committed. destruct (setSelectedItem P); simpl;
    [reflexivity | now rewrite app_nil_r].
Qed.

Lemma promise_enter_commits
  {T : Type} (P : Props T) (w : World T) (item : T) :
  JS.index (suggestions (ui w)) (activeSuggestion (ui w)) = Some item ->
  value (ui w) <> FStr "" ->
  PromiseVariant.onKeyDown P Enter w = committed P item w.
Proof.
  intros H V. pose proof (index_Some_length _ _ _ H) as L.
  unfold PromiseVariant.onKeyDown. simpl.
  rewrite (nonEmptyValue_true _ V).
  replace (0 <? Z.of_nat (List.length (suggestions (ui w))))%Z with true
    by (symmetry; apply Z.ltb_lt; lia).
  simpl. rewrite H. unfold committed.
  destruct (setSelectedItem P); simpl; [reflexivity | now rewrite app_nil_r].
Qed.

Lemma promise_enter_ignored
  {T : Type} (P : Props T) (w : World T) :
  value (ui w) = FStr "" -> PromiseVariant.onKeyDown P Enter w = w.
Proof.
  intros H. unfold PromiseVariant.onKeyDown. rewrite H. reflexivity.
Qed.

Lemma commit_selection_click
  {T : Type} (P : Props T) (w : World T) (k : nat) (x : T) :
  showSuggestions (ui w) = true ->
  nth_error (suggestions (ui w)) k = Some x ->
  TimeoutVariant.dispatch P (ItemClick k) w = committed P x w
  /\ PromiseVariant.dispatch P (ItemClick k) w = committed P x w.
Proof.
  intros Hv Hn. split; simpl.
  - unfold TimeoutVariant.rendered. rewrite Hv, Hn.
    unfold TimeoutVariant.onSetSuggestion, committed.
    destruct (setSelectedItem P); simpl; [reflexivity | now rewrite app_nil_r].
  - unfold PromiseVariant.rendered. rewrite Hv, Hn.
    unfold PromiseVariant.onSetSuggestion, committed.
    destruct (setSelectedItem P); simpl; [reflexivity | now rewrite app_nil_r].
Qed.

(** C5, as the code has it: when the active index is a position of the
    suggestion list, Enter commits the suggestion at that position in
    [index.tsx]; the version with the promise does so when the input text is
    not empty and does nothing when it is; a click on a rendered item commits
    that item in both, whatever the active index.  A commit sets the text to
    the field value of the item, hides the list and calls the host callback
    once. *)
Theorem commit_selection
  {T : Type} (P : Props T) (w : World T) (item : T) :
  JS.index (suggestions (ui w)) (activeSuggestion (ui w)) = Some item ->
  TimeoutVariant.onKeyDown P Enter w = committed P item w
  /\ (value (ui w) <> FStr "" ->
      PromiseVariant.onKeyDown P Enter w = committed P item w)
  /\ (value (ui w) = FStr "" -> PromiseVariant.onKeyDown P Enter w = w)
  /\ (forall k x,
        showSuggestions (ui w) = true ->
        nth_error (suggestions (ui w)) k = Some x ->
        TimeoutVariant.dispatch P (ItemClick k) w = committed P x w
        /\ PromiseVariant.dispatch P (ItemClick k) w = committed P x w).
Proof.
  intros H. repeat split.
  - now apply timeout_enter_commits.
  - now apply promise_enter_commits.
  - now apply promise_enter_ignored.
  - now apply commit_selection_click.
  - now apply commit_selection_click.
Qed.

Lemma commit_selection_witness :
  TimeoutVariant.onKeyDown (pokemonProps pokedex) Enter onixVisible
  = committed (pokemonProps pokedex) onix onixVisible
  /\ (value (ui onixVisible) <> FStr "" ->
      PromiseVariant.onKeyDown (pokemonProps pokedex) Enter onixVisible
      = committed (pokemonProps pokedex) onix onixVisible)
  /\ (value (ui onixVisible) = FStr "" ->
      PromiseVariant.onKeyDown (pokemonProps pokedex) Enter onixVisible = onixVisible)
  /\ (forall k x,
        showSuggestions (ui onixVisible) = true ->
        nth_error (suggestions (ui onixVisible)) k = Some x ->
        TimeoutVariant.dispatch (pokemonProps pokedex) (ItemClick k) onixVisible
        = committed (pokemonProps pokedex) x onixVisible
        /\ PromiseVariant.dispatch (pokemonProps pokedex) (ItemClick k) onixVisible
           = committed (pokemonProps pokedex) x onixVisible).
Proof.
  apply (commit_selection (pokemonProps pokedex) onixVisible onix).
  reflexivity.
Defined.

(** The scenario of the specification: Enter on the active suggestion onix. *)
Example enter_on_onix :
  committed (pokemonProps pokedex) onix onixVisible
  = mkWorld (mkState (FStr "onix") false [onix] 0%Z) 1000 [] [onix] [] [].
Proof. reflexivity. Qed.

(** C5 as it is written fails for the version with the promise: after [o] is
    typed and deleted again within the delay, the list is visible with one
    suggestion and the cursor on it, yet Enter neither sets the text, nor
    hides the list, nor calls the host. *)
Lemma enter_ignored_on_visible_list :
  let P := pokemonProps pokedex in
  let w := PromiseVariant.run P [Change "o"; Elapse 500; Change ""; Elapse 500] mount in
  let w' := PromiseVariant.dispatch P (KeyDown Enter) w in
  showSuggestions (ui w) = true
  /\ JS.index (suggestions (ui w)) (activeSuggestion (ui w)) = Some onix
  /\ ~ (value (ui w') = FStr "onix"
        /\ showSuggestions (ui w') = false
        /\ selected w' = [onix]).
Proof.
  cbv zeta. split; [reflexivity|]. split; [reflexivity|].
  intros [H _]. vm_compute in H. discriminate.
Qed.

(** The arrow keys and the keys the handler ignores leave the text, the
    visibility, the host and the error log alone. *)
Lemma arrows_frame
  {T : Type} (P : Props T) (d : Event -> World T -> World T)
  (key : Key) (w : World T) :
  d = TimeoutVariant.dispatch P \/ d = PromiseVariant.dispatch P ->
  key = ArrowUp \/ key = ArrowDown \/ key = OtherKey ->
  showSuggestions (ui (d (KeyDown key) w)) = showSuggestions (ui w)
  /\ value (ui (d (KeyDown key) w)) = value (ui w)
  /\ suggestions (ui (d (KeyDown key) w)) = suggestions (ui w)
  /\ selected (d (KeyDown key) w) = selected w
  /\ errors (d (KeyDown key) w) = errors w.
Proof.
  intros [-> | ->] [-> | [-> | ->]];
    cbn [TimeoutVariant.dispatch PromiseVariant.dispatch];
    unfold TimeoutVariant.onKeyDown, PromiseVariant.onKeyDown;
    cbn [Key_eqb andb]; split_ifs; repeat split.
Qed.

(** C8, as the code has it: Escape hides the list and clears the input text;
    a click outside hides the list and changes nothing else, so the text stays
    and the host is not called; and a transition that hides a visible list
    without an error is the query becoming empty, Escape, a click outside, or
    a commit by Enter or by a click on an item, which replaces the text by
    the field value of the committed item and calls the host. *)
Theorem hiding_frame
  {T : Type} (P : Props T) (d : Event -> World T -> World T)
  (ev : Event) (w : World T) :
  d = TimeoutVariant.dispatch P \/ d = PromiseVariant.dispatch P ->
  showSuggestions (ui w) = true ->
  d (KeyDown Escape) w = setValue (FStr "") (setShowSuggestions false w)
  /\ d OutsideClick w = setShowSuggestions false w
  /\ (showSuggestions (ui (d ev w)) = false ->
      errors (d ev w) = errors w ->
      HidingOutcome P ev w (d ev w)).
Proof.
  intros Hd Hv.
  split; [destruct Hd as [-> | ->]; reflexivity|].
  split; [destruct Hd as [-> | ->]; reflexivity|].
  intros Hh He. unfold HidingOutcome.
  destruct ev as [input|key|k|k| |ms].
  - (* Change *)
    assert (E : d (Change input) w
                = if String.eqb input ""
                  then setShowSuggestions false
                         (setActiveSuggestion (fun _ => 0%Z) (setValue (FStr input) w))
                  else setTimeout input 1000
                         (setActiveSuggestion (fun _ => 0%Z) (setValue (FStr input) w)))
      by (destruct Hd as [-> | ->]; reflexivity).
    rewrite E in *. destruct (String.eqb input "") eqn:I.
    + apply String.eqb_eq in I. subst. left. repeat split.
    + simpl in Hh. congruence.
  - (* KeyDown *)
    destruct key.
    + exfalso. destruct (arrows_frame P d ArrowUp w Hd) as [E _]; [auto|].
      congruence.
    + exfalso. destruct (arrows_frame P d ArrowDown w Hd) as [E _]; [auto|].
      congruence.
    + right; left. destruct Hd as [-> | ->]; repeat split.
    + right; right; right.
      destruct (JS.index (suggestions (ui w)) (activeSuggestion (ui w)))
        as [item|] eqn:I.
      * assert (E : d (KeyDown Enter) w = committed P item w
                    \/ d (KeyDown Enter) w = w).
        { destruct Hd as [-> | ->]; [left; now apply timeout_enter_commits|].
          destruct (value (ui w)) as [[|c s]|] eqn:V.
          - right. now apply promise_enter_ignored.
          - left. apply promise_enter_commits; [exact I | congruence].
          - left. apply promise_enter_commits; [exact I | congruence]. }
        destruct E as [E | E]; rewrite E in *; [|congruence].
        exists item. split; [left; split; reflexivity || exact I|].
        split; reflexivity.
      * exfalso. destruct Hd as [-> | ->]; simpl in *.
        -- unfold TimeoutVariant.onKeyDown in He. simpl in He. rewrite I in He.
           simpl in He. now apply snoc_neq in He.
        -- unfold PromiseVariant.onKeyDown in He, Hh. simpl in He, Hh.
           rewrite I in He, Hh.
           destruct (PromiseVariant.nonEmptyValue (value (ui w))
                     && (0 <? Z.of_nat (List.length (suggestions (ui w))))%Z);
             simpl in He, Hh; [now apply snoc_neq in He | congruence].
    + exfalso. destruct (arrows_frame P d OtherKey w Hd) as [E _]; [auto|].
      congruence.
  - (* ItemClick *)
    destruct (nth_error (suggestions (ui w)) k) as [x|] eqn:N.
    + right; right; right. exists x.
      destruct (commit_selection_click P w k x Hv N) as [E1 E2].
      assert (E : d (ItemClick k) w = committed P x w)
        by (destruct Hd as [-> | ->]; assumption).
      rewrite E. split; [right; exists k; split; reflexivity || exact N|].
      split; reflexivity.
    + exfalso. destruct Hd as [-> | ->]; simpl in Hh;
        [unfold TimeoutVariant.rendered in Hh
        |unfold PromiseVariant.rendered in Hh];
        rewrite Hv, N in Hh; congruence.
  - (* ItemEnter *)
    exfalso. destruct Hd as [-> | ->]; simpl in Hh;
      [unfold TimeoutVariant.rendered in Hh
      |unfold PromiseVariant.rendered in Hh];
      rewrite Hv in Hh; destruct (nth_error (suggestions (ui w)) k);
      simpl in Hh; congruence.
  - (* OutsideClick *)
    right; right; left. destruct Hd as [-> | ->]; repeat split.
  - (* Elapse *)
    exfalso. destruct Hd as [-> | ->]; simpl in Hh.
    + rewrite timeouts_keep_visible in Hh; [discriminate | exact Hv].
    + rewrite settlements_keep_visible in Hh; [discriminate | exact Hv].
Qed.

Lemma hiding_frame_witness :
  TimeoutVariant.dispatch (pokemonProps pokedex) (KeyDown Escape) onixVisible
  = setValue (FStr "") (setShowSuggestions false onixVisible)
  /\ TimeoutVariant.dispatch (pokemonProps pokedex) OutsideClick onixVisible
     = setShowSuggestions false onixVisible
  /\ (showSuggestions
        (ui (TimeoutVariant.dispatch (pokemonProps pokedex) OutsideClick onixVisible))
      = false ->
      errors (TimeoutVariant.dispatch (pokemonProps pokedex) OutsideClick onixVisible)
      = errors onixVisible ->
      HidingOutcome (pokemonProps pokedex) OutsideClick onixVisible
        (TimeoutVariant.dispatch (pokemonProps pokedex) OutsideClick onixVisible)).
Proof.
  apply (hiding_frame (pokemonProps pokedex)
           (TimeoutVariant.dispatch (pokemonProps pokedex)) OutsideClick onixVisible).
  - left. reflexivity.
  - reflexivity.
Defined.

(** The scenario of the specification: a click outside a visible list. *)
Example click_outside_onix :
  PromiseVariant.dispatch (pokemonProps pokedex) OutsideClick onixVisible
  = mkWorld (mkState (FStr "on") false [onix] 0%Z) 1000 [] [] [] [].
Proof. reflexivity. Qed.

(** C8 as it is written fails: Enter on a visible list hides it, the query
    did not become empty and the key is not Escape, yet the text changes and
    the host is called. *)
Lemma commit_hides_and_changes_text :
  let P := pokemonProps pokedex in
  let w := TimeoutVariant.run P [Change "on"; Elapse 1000] mount in
  let w' := TimeoutVariant.dispatch P (KeyDown Enter) w in
  showSuggestions (ui w) = true
  /\ showSuggestions (ui w') = false
  /\ value (ui w') <> FStr ""
  /\ ~ (value (ui w') = value (ui w) /\ selected w' = selected w).
Proof.
  cbv zeta. split; [reflexivity|]. split; [reflexivity|].
  split; [vm_compute; discriminate|].
  intros [H _]. vm_compute in H. discriminate.
Qed.

(** ** The cursor *)

(** What the key handler and the change handler do to the cursor, in both
    versions: ArrowUp at 0 and ArrowDown on the last position leave it,
    ArrowUp elsewhere takes one off, ArrowDown before the last position adds
    one, and a keystroke in the input puts it back to 0. *)
Lemma cursor_moves
  {T : Type} (P : Props T) (d : Event -> World T -> World T) (w : World T) :
  d = TimeoutVariant.dispatch P \/ d = PromiseVariant.dispatch P ->
  let i := activeSuggestion (ui w) in
  let len := Z.of_nat (List.length (suggestions (ui w))) in
  (i = 0%Z -> d (KeyDown ArrowUp) w = w)
  /\ (i <> 0%Z -> activeSuggestion (ui (d (KeyDown ArrowUp) w)) = (i - 1)%Z)
  /\ (i = (len - 1)%Z -> d (KeyDown ArrowDown) w = w)
  /\ ((i < len - 1)%Z -> activeSuggestion (ui (d (KeyDown ArrowDown) w)) = (i + 1)%Z)
  /\ (forall input, activeSuggestion (ui (d (Change input) w)) = 0%Z).
Proof.
  intros Hd i len.
  assert (U : d (KeyDown ArrowUp) w
              = if negb (i =? 0)%Z
                then let w' := setActiveSuggestion (fun prev => prev - 1)%Z w in
                     if showSuggestions (ui w) && (2 * i <=? len)%Z
                     then scrollTo ScrollTop w' else w'
                else w)
    by (destruct Hd as [-> | ->]; reflexivity).
  assert (D : d (KeyDown ArrowDown) w
              = if (i <? len - 1)%Z
                then let w' := setActiveSuggestion (fun prev => prev + 1)%Z w in
                     if showSuggestions (ui w) && (len <=? 2 * i)%Z
                     then scrollTo ScrollBottom w' else w'
                else w)
    by (destruct Hd as [-> | ->]; reflexivity).
  repeat split.
  - intros E. rewrite U, E. reflexivity.
  - intros E. rewrite U. apply Z.eqb_neq in E. rewrite E. cbn [negb].
    cbv zeta. split_ifs; reflexivity.
  - intros E. rewrite D.
    replace (i <? len - 1)%Z with false by (symmetry; apply Z.ltb_ge; lia).
    reflexivity.
  - intros E. rewrite D. apply Z.ltb_lt in E. rewrite E.
    cbv zeta. split_ifs; reflexivity.
  - intros input. destruct Hd as [-> | ->]; simpl;
      unfold TimeoutVariant.handleOnChange, PromiseVariant.handleOnChange;
      split_ifs; reflexivity.
Qed.

(** The scenario of the specification: three suggestions, cursor at 0. *)
Example arrows_over_three :
  let w := mkWorld (mkState (FStr "s") true [bulbasaur; ivysaur; venusaur] 0%Z)
                   1000 [] [] [] [] in
  map (fun keys =>
         activeSuggestion
           (ui (TimeoutVariant.run (pokemonProps pokedex) (map KeyDown keys) w)))
      [[ArrowUp]; [ArrowDown]; [ArrowDown; ArrowDown];
       [ArrowDown; ArrowDown; ArrowDown]]
  = [0; 1; 2; 2]%Z.
Proof. reflexivity. Qed.

(** ** Requests that overlap *)

(** C1 on the code: [i] is typed, and [iv] half a second later.  When the
    first delay ends the result of the superseded request [i] is applied:
    the list is shown with onix in it, while the text is [iv] and the request
    for [iv] is still pending.  Both versions do this. *)
Theorem superseded_request_commits :
  let P := pokemonProps pokedex in
  let keys := [Change "i"; Elapse 500; Change "iv"; Elapse 500] in
  TimeoutVariant.run P keys mount
  = mkWorld (mkState (FStr "iv") true [ivysaur; onix] 0%Z)
            1000 [mkTimer 1500 "iv"] [] [] []
  /\ PromiseVariant.run P keys mount
     = mkWorld (mkState (FStr "iv") true [ivysaur; onix] 0%Z)
               1000 [mkTimer 1500 "iv"] [] [] []
  /\ filterData P "iv" = JS.Normal [ivysaur].
Proof. cbv zeta. repeat split. Qed.

(** C4 on the code: [o] is typed and deleted again within the delay.  The
    request for [o] still completes and shows the list, so the text is empty
    and the list is visible.  Both versions do this. *)
Theorem empty_text_with_visible_list :
  let P := pokemonProps pokedex in
  let keys := [Change "o"; Elapse 500; Change ""; Elapse 500] in
  TimeoutVariant.run P keys mount
  = mkWorld (mkState (FStr "") true [onix] 0%Z) 1000 [] [] [] []
  /\ PromiseVariant.run P keys mount
     = mkWorld (mkState (FStr "") true [onix] 0%Z) 1000 [] [] [] [].
Proof. cbv zeta. repeat split. Qed.

(** C6 on the code: with [ivysaur; onix] shown, [iv] is typed and ArrowDown
    is pressed before the new result arrives.  The result [ivysaur] replaces
    the list and the cursor stays at 1, outside the list of length 1.  Both
    versions do this. *)
Theorem cursor_outside_the_list :
  let P := pokemonProps pokedex in
  let keys := [Change "i"; Elapse 1000; Change "iv"; KeyDown ArrowDown; Elapse 1000] in
  TimeoutVariant.run P keys mount
  = mkWorld (mkState (FStr "iv") true [ivysaur] 1%Z) 2000 [] [] [] []
  /\ PromiseVariant.run P keys mount
     = mkWorld (mkState (FStr "iv") true [ivysaur] 1%Z) 2000 [] [] [] []
  /\ JS.index [ivysaur] 1%Z = None.
Proof. cbv zeta. repeat split. Qed.

(** C2 on the code: [xyz] matches nothing, so the list is visible and empty.
    Enter in [index.tsx] hides the list and then reads [suggestions[0]],
    which is undefined, so the handler throws; the version with the promise
    leaves the state alone. *)
Theorem enter_on_empty_list :
  let P := pokemonProps pokedex in
  let w := mkWorld (mkState (FStr "xyz") true [] 0%Z) 1000 [] [] [] [] in
  TimeoutVariant.run P [Change "xyz"; Elapse 1000] mount = w
  /\ TimeoutVariant.dispatch P (KeyDown Enter) w
     = mkWorld (mkState (FStr "xyz") false [] 0%Z) 1000 [] [] [Uncaught JS.TypeError] []
  /\ PromiseVariant.dispatch P (KeyDown Enter) w = w.
Proof. cbv zeta. repeat split. Qed.

(** On a visible, empty list ArrowUp still moves a cursor that an earlier
    list left above 0. *)
Example arrow_up_on_empty_list :
  let P := pokemonProps pokedex in
  let keys := [Change "i"; Elapse 1000; Change "iz"; KeyDown ArrowDown; Elapse 1000] in
  PromiseVariant.run P keys mount
  = mkWorld (mkState (FStr "iz") true [] 1%Z) 2000 [] [] [] []
  /\ activeSuggestion
       (ui (PromiseVariant.run P (keys ++ [KeyDown ArrowUp]) mount)) = 0%Z.
Proof. cbv zeta. repeat split. Qed.

(** ** The highlighter *)

Section HighlightFacts.

Lemma isLower_iff (c : ascii) :
  JS.isLower c = true
  <-> 97 <= nat_of_ascii c <= 122
      \/ (224 <= nat_of_ascii c <= 254 /\ nat_of_ascii c <> 247).
Proof.
  unfold JS.isLower.
  rewrite orb_true_iff, !andb_true_iff, negb_true_iff, !Nat.leb_le, Nat.eqb_neq.
  tauto.
Qed.

Lemma isLower_false (c : ascii) :
  JS.isLower c = false ->
  ~ (97 <= nat_of_ascii c <= 122
     \/ (224 <= nat_of_ascii c <= 254 /\ nat_of_ascii c <> 247)).
Proof.
  intros H X. apply isLower_iff in X. congruence.
Qed.

(** What the [i] flag folds is what [toLowerCase] folds. *)
Lemma canonicalize_eq_iff (a b : ascii) :
  RegExp.canonicalize a = RegExp.canonicalize b <-> SameLetter a b.
Proof.
  pose proof (nat_of_ascii_lt a) as La. pose proof (nat_of_ascii_lt b) as Lb.
  split.
  - unfold RegExp.canonicalize. intros H.
    destruct (JS.isLower a) eqn:Ua, (JS.isLower b) eqn:Ub.
    + apply isLower_iff in Ua, Ub.
      assert (E : nat_of_ascii a = nat_of_ascii b) by lia.
      rewrite <- (ascii_nat_embedding a), <- (ascii_nat_embedding b), E.
      constructor.
    + apply isLower_iff in Ua. apply isLower_false in Ub.
      destruct (Nat.eqb_spec (nat_of_ascii b) 255); [lia|].
      destruct (Nat.eqb_spec (nat_of_ascii b) 181); [lia|].
      assert (R : UpperCode (nat_of_ascii b)) by (unfold UpperCode; lia).
      pose proof (lower_upper _ R) as S.
      replace (nat_of_ascii b + 32) with (nat_of_ascii a) in S by lia.
      now rewrite !ascii_nat_embedding in S.
    + apply isLower_iff in Ub. apply isLower_false in Ua.
      destruct (Nat.eqb_spec (nat_of_ascii a) 255); [lia|].
      destruct (Nat.eqb_spec (nat_of_ascii a) 181); [lia|].
      assert (R : UpperCode (nat_of_ascii a)) by (unfold UpperCode; lia).
      pose proof (upper_lower _ R) as S.
      replace (nat_of_ascii a + 32) with (nat_of_ascii b) in S by lia.
      now rewrite !ascii_nat_embedding in S.
    + assert (E : nat_of_ascii a = nat_of_ascii b).
      { destruct (Nat.eqb_spec (nat_of_ascii a) 255),
                 (Nat.eqb_spec (nat_of_ascii b) 255),
                 (Nat.eqb_spec (nat_of_ascii a) 181),
                 (Nat.eqb_spec (nat_of_ascii b) 181); lia. }
      rewrite <- (ascii_nat_embedding a), <- (ascii_nat_embedding b), E.
      constructor.
  - assert (X : forall n, UpperCode n ->
                  RegExp.canonicalize (ascii_of_nat n) = n
                  /\ RegExp.canonicalize (ascii_of_nat (n + 32)) = n).
    { intros n U. unfold UpperCode in U. unfold RegExp.canonicalize.
      assert (E1 : nat_of_ascii (ascii_of_nat n) = n)
        by (apply nat_ascii_embedding; lia).
      assert (E2 : nat_of_ascii (ascii_of_nat (n + 32)) = n + 32)
        by (apply nat_ascii_embedding; lia).
      split.
      - destruct (JS.isLower (ascii_of_nat n)) eqn:L.
        + apply isLower_iff in L. lia.
        + rewrite E1.
          destruct (Nat.eqb_spec n 255); [lia|].
          destruct (Nat.eqb_spec n 181); [lia | reflexivity].
      - destruct (JS.isLower (ascii_of_nat (n + 32))) eqn:L.
        + rewrite E2. lia.
        + apply isLower_false in L. lia. }
    intros [c | n H | n H].
    + reflexivity.
    + destruct (X n H) as [-> ->]. reflexivity.
    + destruct (X n H) as [-> ->]. reflexivity.
Qed.

Lemma SameLetter_sym (a b : ascii) : SameLetter a b -> SameLetter b a.
Proof. intros [c | n H | n H]; now constructor. Qed.



Lemma compile_literal (q : string) :
  isLiteral q = true -> RegExp.compile q = Some (literals q).
Proof.
  induction q as [|c q IH]; simpl; [reflexivity|].
  rewrite !andb_true_iff, !negb_true_iff. intros [[S D] L].
  now rewrite S, D, (IH L).
Qed.


(** A literal pattern matches at the start of [s] exactly when [s] starts
    with the query up to letter case. *)
Lemma matchAt_literals (q s rest : string) :
  RegExp.matchAt (literals q) s = Some rest
  <-> exists mid, s = mid ++ rest /\ EqIgnoreCase mid q.
Proof.
  revert s; induction q as [|c q IH]; intros s; simpl.
  - split.
    + intros H. injection H as ->. exists "". split; [reflexivity | constructor].
    + intros (mid & -> & H). inversion H. reflexivity.
  - destruct s as [|a s].
    + split; [discriminate|]. intros (mid & E & H). inversion H; subst.
      discriminate.
    + destruct (Nat.eqb (RegExp.canonicalize c) (RegExp.canonicalize a)) eqn:E.
      * apply Nat.eqb_eq, canonicalize_eq_iff, SameLetter_sym in E.
        rewrite IH. split.
        -- intros (mid & -> & H). exists (String a mid).
           split; [reflexivity | now constructor].
        -- intros (mid & E' & H). inversion H; subst.
           injection E' as -> ->. eauto.
      * split; [discriminate|]. intros (mid & E' & H). inversion H; subst.
        injection E' as -> ->. apply Nat.eqb_neq in E. exfalso. apply E.
        now apply canonicalize_eq_iff, SameLetter_sym.
Qed.

Lemma matchAt_literals_None (q s : string) :
  RegExp.matchAt (literals q) s = None <-> ~ StartsIgnoreCase s q.
Proof.
  split.
  - intros H (mid & rest & E & M).
    assert (RegExp.matchAt (literals q) s = Some rest)
      by (apply matchAt_literals; eauto).
    congruence.
  - intros H. destruct (RegExp.matchAt (literals q) s) as [rest|] eqn:E;
      [|reflexivity].
    apply matchAt_literals in E as (mid & -> & M). exfalso. apply H.
    now exists mid, rest.
Qed.

Lemma Contains_cons (q : string) (c : ascii) (s : string) :
  ContainsIgnoreCase (String c s) q
  <-> StartsIgnoreCase (String c s) q \/ ContainsIgnoreCase s q.
Proof.
  split.
  - intros ([|a pre] & mid & post & E & M).
    + left. now exists mid, post.
    + right. injection E as -> ->. now exists pre, mid, post.
  - intros [(mid & rest & E & M) | (pre & mid & post & -> & M)].
    + now exists "", mid, rest.
    + now exists (String c pre), mid, post.
Qed.

Lemma Contains_nil (q : string) :
  ContainsIgnoreCase "" q <-> StartsIgnoreCase "" q.
Proof.
  split.
  - intros ([|a pre] & mid & post & E & M); [|discriminate].
    now exists mid, post.
  - intros (mid & rest & E & M). now exists "", mid, rest.
Qed.

(** [regex.test] of a literal pattern is the containment of the
    specification. *)
Lemma test_literals (q s : string) :
  RegExp.test (literals q) s = true <-> ContainsIgnoreCase s q.
Proof.
  induction s as [|c s IH]; simpl.
  - rewrite Contains_nil.
    destruct (RegExp.matchAt (literals q) "") as [rest|] eqn:E.
    + apply matchAt_literals in E as (mid & E & M). split; [|reflexivity].
      intros _. now exists mid, rest.
    + apply matchAt_literals_None in E. split; [discriminate | contradiction].
  - rewrite Contains_cons.
    destruct (RegExp.matchAt (literals q) (String c s)) as [rest|] eqn:E.
    + apply matchAt_literals in E as (mid & E & M). split; [|reflexivity].
      intros _. left. now exists mid, rest.
    + apply matchAt_literals_None in E. rewrite IH. tauto.
Qed.

End HighlightFacts.

Section ReplaceFacts.
Variable q : string.
Hypothesis q_not_empty : q <> "".

Lemma replaceFrom_start (p : RegExp.Pattern) (rep : string) (c : ascii) (s : string) :
  RegExp.replaceFrom p rep 0 (String c s)
  = match RegExp.matchAt p (String c s) with
    | Some _ =>
        rep ++ match List.length p with
               | O => String c (RegExp.replaceFrom p rep 0 s)
               | S k => RegExp.replaceFrom p rep k s
               end
    | None => String c (RegExp.replaceFrom p rep 0 s)
    end.
Proof. reflexivity. Qed.





End ReplaceFacts.




(** What the code puts into the marker is the query, in the case it was
    typed in. *)
Example highlight_Onix :
  HighlightSearchValue "on" "Onix" = Some (InnerHTML (emphasis "on" ++ "ix")).
Proof. reflexivity. Qed.

Example highlight_no_match :
  HighlightSearchValue "xyz" "onix" = Some (PlainText "onix").
Proof. reflexivity. Qed.

(** A dot in the query is a wildcard: every character of the text is
    replaced. *)
Example highlight_dot :
  HighlightSearchValue "." "ab" = Some (InnerHTML (emphasis "." ++ emphasis ".")).
Proof. reflexivity. Qed.



(** ** More on the filter *)

Section FilterMore.
Context {T : Type} (P : Props T).

Lemma filter_Normal_typed (p : string) (l r : list T) :
  JS.filter (matchesInput P p) l = JS.Normal r ->
  Forall (fun x => In x l /\ exists v, filterField P x = FStr v) r
  /\ Forall (fun x => exists v, filterField P x = FStr v) l.
Proof.
  revert r; induction l as [|x l IH]; simpl; intros r H.
  - injection H as <-. split; constructor.
  - unfold matchesInput at 1 in H.
    destruct (filterField P x) as [v|] eqn:F; [|discriminate].
    destruct (JS.filter (matchesInput P p) l) as [r'|] eqn:E; [|discriminate].
    destruct (IH r' eq_refl) as [I1 I2]. injection H as <-.
    assert (I1' : Forall (fun y => In y (x :: l)
                                   /\ exists v, filterField P y = FStr v) r')
      by (eapply Forall_impl; [|exact I1]; simpl; intros y [? ?]; auto).
    split; [|constructor; eauto].
    destruct (JS.includes _ _); [constructor; simpl; eauto | exact I1'].
Qed.

Lemma filter_ext (p p' : T -> JS.Completion bool) (l : list T) :
  (forall x, p x = p' x) -> JS.filter p l = JS.filter p' l.
Proof.
  intros H. induction l as [|x l IH]; simpl; [reflexivity|].
  now rewrite H, IH.
Qed.

(** The filter throws exactly when some item of [data] has no string in its
    filter field, whatever the query; the exception is a [TypeError]. *)
Theorem filter_throws_iff (q : string) :
  filterData P q = JS.Throw JS.TypeError
  <-> Exists (fun item => filterField P item = FOther) (data P).
Proof.
  unfold filterData. induction (data P) as [|x l IH]; simpl.
  - split; [discriminate | intros H; inversion H].
  - unfold matchesInput at 1. destruct (filterField P x) as [v|] eqn:F.
    + destruct (JS.filter (matchesInput P q) l) as [r|[]] eqn:E.
      * split; [discriminate|]. intros H. inversion H; subst; [congruence|].
        apply IH in H1. discriminate.
      * split; [intros _; right; now apply IH | reflexivity].
    + split; [intros _; now left | reflexivity].
Qed.

End FilterMore.

Lemma includes_trans (a b c : string) :
  JS.includes a b = true -> JS.includes b c = true -> JS.includes a c = true.
Proof.
  rewrite !includes_spec. intros (p1 & s1 & ->) (p2 & s2 & ->).
  exists (p1 ++ p2), (s2 ++ s1). now rewrite !append_assoc.
Qed.

(** Typing on narrows the list: when the old query occurs in the new one (up
    to letter case), filtering the candidates with the new query gives the
    same list as filtering the old result with it, and every item of it was
    in the old result. *)
Theorem filter_narrows
  {T : Type} (P : Props T) (q q' : string) (r : list T) :
  ContainsIgnoreCase q' q ->
  filterData P q = JS.Normal r ->
  exists r',
    filterData P q' = JS.Normal r'
    /\ JS.filter (matchesInput P q') r = JS.Normal r'
    /\ forall x, In x r' -> In x r.
Proof.
  intros C. apply includes_toLowerCase_iff in C.
  unfold filterData. revert r. induction (data P) as [|x l IH]; simpl; intros r H.
  - injection H as <-. exists []. repeat split. auto.
  - unfold matchesInput at 1 in H. unfold matchesInput at 1.
    destruct (filterField P x) as [v|] eqn:F; [|discriminate].
    destruct (JS.filter (matchesInput P q) l) as [r0|] eqn:E; [|discriminate].
    destruct (IH r0 eq_refl) as (r' & H1 & H2 & H3). rewrite H1.
    injection H as <-.
    destruct (JS.includes (JS.toLowerCase v) (JS.toLowerCase q')) eqn:I'.
    + rewrite (includes_trans _ _ _ I' C). simpl.
      unfold matchesInput at 1. rewrite F, I', H2.
      exists (x :: r'). repeat split. simpl. intros y [-> | Hy]; auto.
    + exists r'. split; [reflexivity|].
      destruct (JS.includes (JS.toLowerCase v) (JS.toLowerCase q)).
      * simpl. unfold matchesInput at 1. rewrite F, I', H2.
        split; [reflexivity|]. simpl. auto.
      * split; [exact H2 | exact H3].
Qed.

Lemma filter_narrows_witness :
  exists r',
    filterData (pokemonProps pokedex) "IV" = JS.Normal r'
    /\ JS.filter (matchesInput (pokemonProps pokedex) "IV") [ivysaur; onix]
       = JS.Normal r'
    /\ forall x, In x r' -> In x [ivysaur; onix].
Proof.
  apply (filter_narrows (pokemonProps pokedex) "i" "IV" [ivysaur; onix]).
  - exists "", "I", "V". split; [reflexivity|].
    constructor; [apply (upper_lower 73); left; lia | constructor].
  - reflexivity.
Defined.

(** The letter case of the query does not matter. *)
Theorem filter_ignores_query_case
  {T : Type} (P : Props T) (q q' : string) :
  EqIgnoreCase q q' -> filterData P q = filterData P q'.
Proof.
  intros H. apply toLowerCase_eq_iff in H. unfold filterData.
  apply filter_ext. intros x. unfold matchesInput. now rewrite H.
Qed.

Lemma filter_ignores_query_case_witness :
  filterData (pokemonProps pokedex) "On" = filterData (pokemonProps pokedex) "oN".
Proof.
  apply (filter_ignores_query_case (pokemonProps pokedex) "On" "oN").
  constructor; [apply (upper_lower 79); left; lia|].
  constructor; [apply (lower_upper 78); left; lia | constructor].
Defined.

Lemma kept_iff_highlighted
  {T : Type} (P : Props T) (q : string) (item : T) :
  isLiteral q = true ->
  (matchesInput P q item = JS.Normal true
   <-> exists v html, filterField P item = FStr v
                      /\ HighlightSearchValue q v = Some (InnerHTML html)).
Proof.
  intros L. unfold matchesInput, HighlightSearchValue.
  rewrite (compile_literal q L). destruct (filterField P item) as [v|].
  - split.
    + intros H. injection H as H.
      apply includes_toLowerCase_iff, test_literals in H.
      exists v. rewrite H. eauto.
    + intros (v' & html & E & H). injection E as <-.
      destruct (RegExp.test (literals q) v) eqn:X; [|discriminate].
      apply test_literals, includes_toLowerCase_iff in X. now rewrite X.
  - split; [discriminate | intros (v & html & E & _); discriminate].
Qed.

(** For a query without pattern syntax the filter and the highlighter agree
    on strings of code units below 256, where [toLowerCase] and the [i] flag
    fold the same letters: the filter keeps an item exactly when the
    highlighter finds the query in its field value and returns markup. *)
Theorem filter_agrees_with_highlighter
  {T : Type} (P : Props T) (q : string) (item : T) :
  isLiteral q = true ->
  (matchesInput P q item = JS.Normal true
   <-> exists v html, filterField P item = FStr v
                      /\ HighlightSearchValue q v = Some (InnerHTML html)).
Proof. apply kept_iff_highlighted. Qed.

Lemma filter_agrees_with_highlighter_witness :
  matchesInput (pokemonProps pokedex) "ON" onix = JS.Normal true
  <-> exists v html, filterField (pokemonProps pokedex) onix = FStr v
                     /\ HighlightSearchValue "ON" v = Some (InnerHTML html).
Proof.
  apply (filter_agrees_with_highlighter (pokemonProps pokedex) "ON" onix).
  reflexivity.
Defined.

(** ** Positions in the list *)

Section IndexOf.
Context {T : Type} (eqb : T -> T -> bool).

Lemma indexOf_range (l : list T) (x : T) :
  (-1 <= JS.indexOf eqb l x < Z.of_nat (List.length l))%Z.
Proof.
  induction l as [|y l IH]; simpl; [lia|].
  destruct (eqb y x); [lia|].
  destruct (JS.indexOf eqb l x <? 0)%Z eqn:E; [lia|].
  apply Z.ltb_ge in E. lia.
Qed.

(** The position found holds an item the test accepts. *)
Lemma indexOf_found (l : list T) (x : T) :
  (0 <= JS.indexOf eqb l x)%Z ->
  exists y, JS.index l (JS.indexOf eqb l x) = Some y /\ eqb y x = true.
Proof.
  induction l as [|y l IH]; simpl; [lia|].
  destruct (eqb y x) eqn:Y; [intros _; exists y; auto|].
  destruct (JS.indexOf eqb l x <? 0)%Z eqn:E; [lia|].
  apply Z.ltb_ge in E. intros _. destruct (IH E) as (z & Hz & Ez).
  exists z. split; [|exact Ez]. unfold JS.index in *.
  destruct (JS.indexOf eqb l x <? 0)%Z eqn:E'; [discriminate|].
  replace (JS.indexOf eqb l x + 1 <? 0)%Z with false
    by (symmetry; apply Z.ltb_ge; lia).
  replace (Z.to_nat (JS.indexOf eqb l x + 1))
    with (S (Z.to_nat (JS.indexOf eqb l x))) by lia.
  exact Hz.
Qed.

(** An item of the list is found, at its position or before it. *)
Lemma indexOf_le (l : list T) (k : nat) (x : T) :
  eqb x x = true -> nth_error l k = Some x ->
  (0 <= JS.indexOf eqb l x <= Z.of_nat k)%Z.
Proof.
  intros R. revert k; induction l as [|y l IH]; intros [|k] H; simpl in *;
    try discriminate.
  - injection H as ->. rewrite R. lia.
  - destruct (eqb y x); [lia|]. specialize (IH k H).
    replace (JS.indexOf eqb l x <? 0)%Z with false
      by (symmetry; apply Z.ltb_ge; lia).
    lia.
Qed.

(** In a list without repetition an item is found at its own position. *)
Lemma indexOf_NoDup (l : list T) (k : nat) (x : T) :
  (forall a b, eqb a b = true <-> a = b) ->
  NoDup l -> nth_error l k = Some x -> JS.indexOf eqb l x = Z.of_nat k.
Proof.
  intros I N. revert k; induction N as [|y l Hy N IH]; intros [|k] H;
    simpl in *; try discriminate.
  - injection H as ->. replace (eqb x x) with true by (symmetry; now apply I).
    reflexivity.
  - destruct (eqb y x) eqn:Y.
    + apply I in Y. subst. exfalso. apply Hy. eapply nth_error_In; eauto.
    + rewrite (IH k H).
      replace (Z.of_nat k <? 0)%Z with false by (symmetry; apply Z.ltb_ge; lia).
      lia.
Qed.

End IndexOf.

(** In a visible list of distinct items the entry at the cursor, and no
    other, carries the [active] class. *)
Theorem active_entry_is_at_cursor
  {T : Type} (P : Props T) (s : State T) (k : nat) (x : T) :
  IsIdentity P -> NoDup (suggestions s) ->
  showSuggestions s = true -> nth_error (suggestions s) k = Some x ->
  exists entries content,
    renderList P s = Some entries
    /\ nth_error entries k
       = Some (SuggestionEntry x (Z.of_nat k =? activeSuggestion s)%Z content).
Proof.
  intros I N V H. unfold renderList. rewrite V.
  destruct (suggestions s) as [|y l] eqn:S; [destruct k; discriminate|].
  eexists. eexists. split; [reflexivity|].
  rewrite nth_error_map, H. unfold option_map.
  now rewrite (indexOf_NoDup (sameItem P) (y :: l) k x I N H).
Qed.

Lemma active_entry_is_at_cursor_witness :
  exists entries content,
    renderList (pokemonProps pokedex)
               (mkState (FStr "i") true [ivysaur; onix] 1%Z) = Some entries
    /\ nth_error entries 1
       = Some (SuggestionEntry onix (Z.of_nat 1 =? 1)%Z content).
Proof.
  apply (active_entry_is_at_cursor (pokemonProps pokedex)
           (mkState (FStr "i") true [ivysaur; onix] 1%Z) 1 onix).
  - intros [n1 u1] [n2 u2]. simpl. unfold PokemonCharacter_eqb. simpl.
    rewrite andb_true_iff, !String.eqb_eq. split.
    + intros [-> ->]. reflexivity.
    + intros H. injection H as -> ->. auto.
  - repeat constructor; simpl; intuition discriminate.
  - reflexivity.
  - reflexivity.
Defined.

(** When the same item is listed twice, only its first entry can be active,
    and the mouse over the second entry puts the cursor on the first. *)
Example repeated_item_is_never_active :
  let P := pokemonProps [onix; onix] in
  let w := mkWorld (mkState (FStr "on") true [onix; onix] 1%Z) 1000 [] [] [] [] in
  renderList P (ui w)
  = Some [SuggestionEntry onix false (Some (InnerHTML (emphasis "on" ++ "ix")));
          SuggestionEntry onix false (Some (InnerHTML (emphasis "on" ++ "ix")))]
  /\ activeSuggestion (ui (TimeoutVariant.dispatch P (ItemEnter 1) w)) = 0%Z.
Proof. cbv zeta. split; reflexivity. Qed.

(** ** The mouse *)

(** The mouse over an entry followed by Enter commits the item of that
    entry: in [index.tsx] always, in the version with the promise when the
    text is not empty. *)
Theorem hover_then_enter_commits
  {T : Type} (P : Props T) (w : World T) (k : nat) (x : T) :
  IsIdentity P ->
  showSuggestions (ui w) = true -> nth_error (suggestions (ui w)) k = Some x ->
  TimeoutVariant.run P [ItemEnter k; KeyDown Enter] w
  = committed P x (TimeoutVariant.dispatch P (ItemEnter k) w)
  /\ (value (ui w) <> FStr "" ->
      PromiseVariant.run P [ItemEnter k; KeyDown Enter] w
      = committed P x (PromiseVariant.dispatch P (ItemEnter k) w)).
Proof.
  intros I V H.
  assert (R : sameItem P x x = true) by now apply I.
  pose proof (indexOf_le (sameItem P) _ _ _ R H) as [L _].
  destruct (indexOf_found (sameItem P) _ _ L) as (y & Hy & Ey).
  apply I in Ey. subst y.
  split; [|intros NE]; simpl.
  - unfold TimeoutVariant.rendered. rewrite V, H.
    apply timeout_enter_commits. exact Hy.
  - unfold PromiseVariant.rendered. rewrite V, H.
    apply promise_enter_commits; [exact Hy | exact NE].
Qed.

Lemma hover_then_enter_commits_witness :
  TimeoutVariant.run (pokemonProps pokedex) [ItemEnter 0; KeyDown Enter] onixVisible
  = committed (pokemonProps pokedex) onix
      (TimeoutVariant.dispatch (pokemonProps pokedex) (ItemEnter 0) onixVisible)
  /\ (value (ui onixVisible) <> FStr "" ->
      PromiseVariant.run (pokemonProps pokedex) [ItemEnter 0; KeyDown Enter] onixVisible
      = committed (pokemonProps pokedex) onix
          (PromiseVariant.dispatch (pokemonProps pokedex) (ItemEnter 0) onixVisible)).
Proof.
  apply (hover_then_enter_commits (pokemonProps pokedex) onixVisible 0 onix).
  - intros [n1 u1] [n2 u2]. simpl. unfold PokemonCharacter_eqb. simpl.
    rewrite andb_true_iff, !String.eqb_eq. split.
    + intros [-> ->]. reflexivity.
    + intros H. injection H as -> ->. auto.
  - reflexivity.
  - reflexivity.
Defined.

(** A click is a [mousedown] followed by a [click].  On an entry of the
    visible list the listener of [useOnClickOutside] lets the [mousedown]
    pass, so the click still finds the entry and commits its item; on the
    input or the placeholder nothing changes; anywhere else the list is
    hidden and nothing else changes. *)
Theorem click_gestures
  {T : Type} (P : Props T) (d : Event -> World T -> World T)
  (w : World T) (k : nat) (x : T) :
  d = TimeoutVariant.dispatch P \/ d = PromiseVariant.dispatch P ->
  showSuggestions (ui w) = true -> nth_error (suggestions (ui w)) k = Some x ->
  clickGesture d (SuggestionRow k) w = committed P x w
  /\ clickGesture d InputBox w = w
  /\ clickGesture d Placeholder w = w
  /\ clickGesture d Elsewhere w = setShowSuggestions false w.
Proof.
  intros Hd V H. unfold clickGesture, handleListener. simpl.
  destruct (commit_selection_click P w k x V H) as [E1 E2].
  repeat split; destruct Hd as [-> | ->]; auto.
Qed.

Lemma click_gestures_witness :
  clickGesture (TimeoutVariant.dispatch (pokemonProps pokedex)) (SuggestionRow 0)
    onixVisible
  = committed (pokemonProps pokedex) onix onixVisible
  /\ clickGesture (TimeoutVariant.dispatch (pokemonProps pokedex)) InputBox onixVisible
     = onixVisible
  /\ clickGesture (TimeoutVariant.dispatch (pokemonProps pokedex)) Placeholder onixVisible
     = onixVisible
  /\ clickGesture (TimeoutVariant.dispatch (pokemonProps pokedex)) Elsewhere onixVisible
     = setShowSuggestions false onixVisible.
Proof.
  apply (click_gestures (pokemonProps pokedex)
           (TimeoutVariant.dispatch (pokemonProps pokedex)) onixVisible 0 onix).
  - left. reflexivity.
  - reflexivity.
  - reflexivity.
Defined.

(** ** [useFetch] and the countries page *)

Lemma useFetch_from
  {A E : Type} (outcomes : list (UseFetch.Outcome A E)) (s : UseFetch.FetchData A E) :
  fold_left (fun s o => UseFetch.fetchData o s) outcomes s
  = UseFetch.mkFetchData
      (match UseFetch.lastParsed outcomes with
       | Some b => Some b
       | None => UseFetch.data s
       end)
      (match outcomes with [] => UseFetch.isLoading s | _ => false end)
      (match UseFetch.lastCaught outcomes with
       | Some c => Some c
       | None => UseFetch.error s
       end).
Proof.
  revert s; induction outcomes as [|o rest IH]; intros s; simpl.
  - now destruct s.
  - rewrite IH. simpl UseFetch.lastParsed. simpl UseFetch.lastCaught.
    destruct (UseFetch.lastParsed rest), (UseFetch.lastCaught rest), o;
      simpl; destruct rest; reflexivity.
Qed.

(** After any number of runs of the effect, [data] is the body of the last
    response that parsed and [error] is what the last failed run caught, so
    a success does not clear an earlier error and a failure keeps the earlier
    data; [isLoading] is true until the first run ends and false from then
    on. *)
Theorem useFetch_keeps_last_of_each
  {A E : Type} (outcomes : list (UseFetch.Outcome A E)) :
  UseFetch.useFetch outcomes
  = UseFetch.mkFetchData
      (UseFetch.lastParsed outcomes)
      (match outcomes with [] => true | _ => false end)
      (UseFetch.lastCaught outcomes).
Proof.
  unfold UseFetch.useFetch. rewrite useFetch_from. simpl.
  destruct (UseFetch.lastParsed outcomes), (UseFetch.lastCaught outcomes);
    reflexivity.
Qed.

(** The second of two requests fails: the data of the first stays beside the
    error. *)
Example useFetch_stale_data :
  UseFetch.useFetch [UseFetch.Parsed pokedex; @UseFetch.NotOk _ unit]
  = UseFetch.mkFetchData (Some pokedex) false (Some UseFetch.NetworkError).
Proof. reflexivity. Qed.



(** ** Time *)

Ltac case_ifs :=
  repeat match goal with
         | |- context [if ?b then _ else _] => destruct b eqn:?
         end.

Section Elapsing.
Context {T : Type} (P : Props T).

Lemma fold_left_ext {A B : Type} (f g : A -> B -> A) (l : list B) (a : A) :
  (forall a b, f a b = g a b) -> fold_left f l a = fold_left g l a.
Proof.
  intros H. revert a; induction l as [|b l IH]; intros a; simpl;
    [reflexivity | now rewrite H, IH].
Qed.

Lemma promise_onTimeout_settle (input : string) (w : World T) :
  PromiseVariant.onTimeout P input w
  = settle P (fun e => UnhandledRejection (JS.ErrorOf e)) input w.
Proof.
  unfold PromiseVariant.onTimeout, PromiseVariant.filterDataAsync, settle.
  now destruct (filterData P input).
Qed.

(** In both versions the passing of time runs [settle] for the due timers,
    oldest first. *)
Lemma dispatch_elapse (d : Event -> World T -> World T) :
  d = TimeoutVariant.dispatch P \/ d = PromiseVariant.dispatch P ->
  exists mk, forall ms w,
    d (Elapse ms) w
    = fold_left (fun w tm => settle P mk (captured tm) w)
                (firing ms w) (afterAdvance ms w).
Proof.
  intros [-> | ->].
  - exists Uncaught. reflexivity.
  - exists (fun e => UnhandledRejection (JS.ErrorOf e)). intros ms w. simpl.
    apply fold_left_ext. intros a b. apply promise_onTimeout_settle.
Qed.

(** The timer callbacks touch the list and the error log only. *)
Lemma settle_frame (mk : JS.Exn -> HostError) (fired : list Timer) (w : World T) :
  let w' := fold_left (fun w tm => settle P mk (captured tm) w) fired w in
  value (ui w') = value (ui w)
  /\ activeSuggestion (ui w') = activeSuggestion (ui w)
  /\ selected w' = selected w
  /\ scrolls w' = scrolls w
  /\ clock w' = clock w
  /\ timers w' = timers w.
Proof.
  revert w; induction fired as [|tm fired IH]; intros w; simpl;
    [repeat split|].
  destruct (IH (settle P mk (captured tm) w)) as (E1 & E2 & E3 & E4 & E5 & E6).
  rewrite E1, E2, E3, E4, E5, E6. unfold settle.
  destruct (filterData P (captured tm)); repeat split.
Qed.

Lemma settle_suggestions (mk : JS.Exn -> HostError) (fired : list Timer) (w : World T) :
  let Q := Forall (fun x => In x (data P) /\ exists v, filterField P x = FStr v) in
  Q (suggestions (ui w)) ->
  Q (suggestions (ui (fold_left (fun w tm => settle P mk (captured tm) w) fired w))).
Proof.
  cbv zeta. revert w; induction fired as [|tm fired IH]; intros w H; simpl;
    [exact H|].
  apply IH. unfold settle.
  destruct (filterData P (captured tm)) as [r|e] eqn:E; [|exact H].
  simpl. exact (proj1 (filter_Normal_typed P _ _ _ E)).
Qed.

Lemma settle_no_error (mk : JS.Exn -> HostError) (fired : list Timer) (w : World T) :
  WellTyped P ->
  errors (fold_left (fun w tm => settle P mk (captured tm) w) fired w) = errors w.
Proof.
  intros W. revert w; induction fired as [|tm fired IH]; intros w; simpl;
    [reflexivity|].
  rewrite IH. unfold settle.
  destruct (filter_select P (captured tm) (data P) W) as (r & E & _).
  fold (filterData P (captured tm)) in E. now rewrite E.
Qed.


Lemma filter_all {A : Type} (f : A -> bool) (l : list A) :
  Forall (fun a => f a = true) l ->
  List.filter f l = l /\ List.filter (fun a => negb (f a)) l = [].
Proof.
  induction 1 as [|a l Ha _ [IH1 IH2]]; simpl; [auto|].
  rewrite Ha. simpl. now rewrite IH1, IH2.
Qed.

Lemma settled_after_second
  (d : Event -> World T -> World T) (q : string) (ms : nat)
  (r : list T) (w : World T) :
  d = TimeoutVariant.dispatch P \/ d = PromiseVariant.dispatch P ->
  TimersOk w -> q <> "" -> 1000 <= ms -> filterData P q = JS.Normal r ->
  ui (d (Elapse ms) (d (Change q) w)) = mkState (FStr q) true r 0%Z
  /\ timers (d (Elapse ms) (d (Change q) w)) = [].
Proof.
  intros Hd [TO _] Hq Hms Hr.
  destruct (dispatch_elapse d Hd) as [mk E]. rewrite E.
  assert (C : d (Change q) w
              = setTimeout q 1000
                  (setActiveSuggestion (fun _ => 0%Z) (setValue (FStr q) w))).
  { apply String.eqb_neq in Hq.
    destruct Hd as [-> | ->]; simpl;
      unfold TimeoutVariant.handleOnChange, PromiseVariant.handleOnChange;
      now rewrite Hq. }
  rewrite C. unfold firing, afterAdvance, advance. simpl.
  assert (D : Forall (fun tm => isDue (clock w + ms) tm = true)
                     (timers w ++ [mkTimer (clock w + 1000) q])).
  { apply Forall_app. split.
    - eapply Forall_impl; [|exact TO]. intros tm [[_ H] _].
      unfold isDue. apply Nat.leb_le. lia.
    - constructor; [|constructor]. unfold isDue. simpl. apply Nat.leb_le. lia. }
  destruct (filter_all _ _ D) as [F1 F2]. rewrite F1, F2.
  rewrite fold_left_app. simpl.
  match goal with
  | |- context [fold_left ?f (timers w) ?w0] =>
      destruct (settle_frame mk (timers w) w0) as (E1 & E2 & _ & _ & _ & E6);
      cbv zeta in E1, E2, E6; simpl in E1, E2, E6
  end.
  unfold settle at 1 3. rewrite Hr. simpl. rewrite E1, E2, E6.
  split; reflexivity.
Qed.

End Elapsing.

Lemma time_frame_selected
  {T : Type} (P : Props T) (d : Event -> World T -> World T)
  (Hd : d = TimeoutVariant.dispatch P \/ d = PromiseVariant.dispatch P)
  (ms : nat) (w : World T) :
  selected (d (Elapse ms) w) = selected w
  /\ scrolls (d (Elapse ms) w) = scrolls w.
Proof.
  destruct (dispatch_elapse P d Hd) as [mk E]. rewrite E.
  destruct (settle_frame P mk (firing ms w) (afterAdvance ms w))
    as (_ & _ & E3 & E4 & _).
  now rewrite E3, E4.
Qed.

Lemma renders_within_typed
  {T : Type} (P : Props T) (s : State T) (q : string) :
  value s = FStr q -> isLiteral q = true ->
  Forall (fun x => In x (data P) /\ exists v, filterField P x = FStr v)
         (suggestions s) ->
  RendersWithin P s.
Proof.
  intros V L S entries. unfold renderList.
  destruct (showSuggestions s); [|discriminate].
  intros E. injection E as <-.
  destruct (suggestions s) as [|x l]; [repeat constructor|].
  apply Forall_map. eapply Forall_impl; [|exact S].
  intros y [_ [v F]]. rewrite V, F. simpl.
  unfold HighlightSearchValue. rewrite (compile_literal q L).
  now destruct (RegExp.test (literals q) v).
Qed.

Lemma typing_then_waiting_renders
  {T : Type} (P : Props T) (d : Event -> World T -> World T)
  (q : string) (ms : nat) (w : World T) :
  d = TimeoutVariant.dispatch P \/ d = PromiseVariant.dispatch P ->
  Forall (fun x => In x (data P) /\ exists v, filterField P x = FStr v)
         (suggestions (ui w)) ->
  isLiteral q = true ->
  RendersWithin P (ui (d (Elapse ms) (d (Change q) w))).
Proof.
  intros Hd S L.
  assert (C : value (ui (d (Change q) w)) = FStr q
              /\ suggestions (ui (d (Change q) w)) = suggestions (ui w)).
  { destruct Hd as [-> | ->]; simpl;
      unfold TimeoutVariant.handleOnChange, PromiseVariant.handleOnChange;
      split_ifs; split; reflexivity. }
  destruct C as [C1 C2].
  destruct (dispatch_elapse P d Hd) as [mk E]. rewrite E.
  destruct (settle_frame P mk (firing ms (d (Change q) w))
              (afterAdvance ms (d (Change q) w))) as (E1 & _).
  apply renders_within_typed with (q := q); [|exact L|].
  - rewrite E1. exact C1.
  - apply settle_suggestions. simpl. rewrite C2. exact S.
Qed.

(** The latest query wins once the requests have completed.  After a
    keystroke with a non-empty input without pattern syntax, in a state
    that keeps the invariant of the component, the list can be rendered at
    every moment of the wait, and a second or more after the keystroke no
    timer is pending, the list is visible and holds the result for that
    input, and the cursor is at 0, whatever older requests were under way. *)
Theorem latest_query_wins
  {T : Type} (P : Props T) (d : Event -> World T -> World T)
  (q : string) (ms : nat) (r : list T) (w : World T) :
  d = TimeoutVariant.dispatch P \/ d = PromiseVariant.dispatch P ->
  Invariant P w -> q <> "" -> isLiteral q = true -> 1000 <= ms ->
  filterData P q = JS.Normal r ->
  ui (d (Elapse ms) (d (Change q) w)) = mkState (FStr q) true r 0%Z
  /\ timers (d (Elapse ms) (d (Change q) w)) = []
  /\ forall ms', RendersWithin P (ui (d (Elapse ms') (d (Change q) w))).
Proof.
  intros Hd (_ & S & _ & _ & TO) Hq L Hms Hr.
  destruct (settled_after_second P d q ms r w Hd TO Hq Hms Hr) as [E1 E2].
  repeat split; [exact E1 | exact E2 |].
  intros ms'. now apply typing_then_waiting_renders.
Qed.

Lemma latest_query_wins_witness :
  ui (TimeoutVariant.dispatch (pokemonProps pokedex) (Elapse 1000)
        (TimeoutVariant.dispatch (pokemonProps pokedex) (Change "iv")
           (TimeoutVariant.run (pokemonProps pokedex)
              [Change "i"; Elapse 500] mount)))
  = mkState (FStr "iv") true [ivysaur] 0%Z
  /\ timers (TimeoutVariant.dispatch (pokemonProps pokedex) (Elapse 1000)
        (TimeoutVariant.dispatch (pokemonProps pokedex) (Change "iv")
           (TimeoutVariant.run (pokemonProps pokedex)
              [Change "i"; Elapse 500] mount)))
     = []
  /\ forall ms',
       RendersWithin (pokemonProps pokedex)
         (ui (TimeoutVariant.dispatch (pokemonProps pokedex) (Elapse ms')
                (TimeoutVariant.dispatch (pokemonProps pokedex) (Change "iv")
                   (TimeoutVariant.run (pokemonProps pokedex)
                      [Change "i"; Elapse 500] mount)))).
Proof.
  apply (latest_query_wins (pokemonProps pokedex)
           (TimeoutVariant.dispatch (pokemonProps pokedex)) "iv" 1000 [ivysaur]
           (TimeoutVariant.run (pokemonProps pokedex) [Change "i"; Elapse 500] mount)).
  - left. reflexivity.
  - split; [exists "i"; reflexivity|]. split; [constructor|].
    split; [constructor|]. split; [simpl; lia|].
    split; simpl.
    + constructor; [|constructor]. simpl. repeat split; [lia | lia | discriminate].
    + repeat constructor.
  - discriminate.
  - reflexivity.
  - lia.
  - reflexivity.
Defined.


(** ** What every event keeps *)

Section Invariants.
Context {T : Type} (P : Props T).
Hypothesis sameItem_refl : forall x, sameItem P x x = true.

Lemma Forall_filter {A : Type} (Q : A -> Prop) (f : A -> bool) (l : list A) :
  Forall Q l -> Forall Q (List.filter f l).
Proof.
  induction 1 as [|a l Ha _ IH]; simpl; [constructor|].
  destruct (f a); [constructor|]; assumption.
Qed.

Lemma Sorted_filter {A : Type} (R : A -> A -> Prop) (f : A -> bool) (l : list A) :
  StronglySorted R l -> StronglySorted R (List.filter f l).
Proof.
  induction 1 as [|a l _ IH Ha]; simpl; [constructor|].
  destruct (f a); [constructor; [exact IH | now apply Forall_filter]|exact IH].
Qed.

Lemma Sorted_snoc {A : Type} (R : A -> A -> Prop) (l : list A) (x : A) :
  StronglySorted R l -> Forall (fun a => R a x) l ->
  StronglySorted R (l ++ [x]).
Proof.
  induction 1 as [|a l _ IH Ha]; intros F; simpl.
  - repeat constructor.
  - inversion F; subst. constructor; [auto|].
    apply Forall_app. split; [exact Ha | repeat constructor; assumption].
Qed.

Lemma TimersOk_setTimeout (input : string) (w : World T) :
  input <> "" -> TimersOk w -> TimersOk (setTimeout input 1000 w).
Proof.
  intros I [F S]. split; simpl.
  - apply Forall_app. split; [exact F|].
    constructor; [|constructor]. simpl. repeat split; [lia | lia | exact I].
  - apply Sorted_snoc; [exact S|].
    eapply Forall_impl; [|exact F]. simpl. intros tm [[_ H] _]. exact H.
Qed.

Lemma TimersOk_advance (ms : nat) (w : World T) :
  TimersOk w -> TimersOk (afterAdvance ms w).
Proof.
  intros [F S]. unfold afterAdvance, advance. split; simpl.
  - apply Forall_forall. intros tm H. apply filter_In in H as [H D].
    rewrite Forall_forall in F. destruct (F tm H) as [[_ U] N].
    unfold isDue in D. apply negb_true_iff, Nat.leb_gt in D.
    repeat split; [lia | lia | exact N].
  - now apply Sorted_filter.
Qed.

Lemma Invariant_step (d : Event -> World T -> World T) (ev : Event) (w : World T) :
  d = TimeoutVariant.dispatch P \/ d = PromiseVariant.dispatch P ->
  Invariant P w -> Invariant P (d ev w).
Proof.
  intros Hd Inv. pose proof Inv as (V & S & H & A & TO).
  destruct ev as [input|key|k|k| |ms].
  - (* Change *)
    assert (E : d (Change input) w
                = if String.eqb input ""
                  then setShowSuggestions false
                         (setActiveSuggestion (fun _ => 0%Z) (setValue (FStr input) w))
                  else setTimeout input 1000
                         (setActiveSuggestion (fun _ => 0%Z) (setValue (FStr input) w)))
      by (destruct Hd as [-> | ->]; reflexivity).
    rewrite E. destruct (String.eqb input "") eqn:I.
    + repeat split; simpl; eauto; try lia; apply TO.
    + apply String.eqb_neq in I.
      split; [simpl; eauto|]. split; [exact S|]. split; [exact H|].
      split; [simpl; lia|].
      apply TimersOk_setTimeout; [exact I|]. exact TO.
  - (* KeyDown *)
    assert (Commit : forall item,
               JS.index (suggestions (ui w)) (activeSuggestion (ui w)) = Some item ->
               Invariant P (committed P item w)).
    { intros item I. unfold JS.index in I.
      destruct (activeSuggestion (ui w) <? 0)%Z; [discriminate|].
      apply nth_error_In in I. rewrite Forall_forall in S.
      destruct (S item I) as [D [v Fv]].
      split; [simpl; eauto|]. split; [apply Forall_forall; exact S|].
      split; [|split; [exact A | exact TO]].
      simpl. apply Forall_app. split; [exact H|].
      destruct (setSelectedItem P); repeat constructor; eauto. }
    destruct key.
    + destruct (arrows_frame P d ArrowUp w Hd) as (_ & E1 & E2 & E3 & _); [auto|].
      destruct (cursor_moves P d w Hd) as (U0 & U1 & _).
      assert (TE : timers (d (KeyDown ArrowUp) w) = timers w
                   /\ clock (d (KeyDown ArrowUp) w) = clock w)
        by (destruct Hd as [-> | ->]; simpl;
            unfold TimeoutVariant.onKeyDown, PromiseVariant.onKeyDown;
            cbn [Key_eqb andb]; split_ifs; split; reflexivity).
      destruct TE as [TE1 TE2].
      unfold Invariant, TimersOk. rewrite E1, E2, E3, TE1, TE2.
      repeat split; try assumption; try apply TO.
      destruct (Z.eq_dec (activeSuggestion (ui w)) 0) as [Z | Z].
      * rewrite (U0 Z). exact A.
      * rewrite (U1 Z). lia.
    + destruct (arrows_frame P d ArrowDown w Hd) as (_ & E1 & E2 & E3 & _); [auto|].
      destruct (cursor_moves P d w Hd) as (_ & _ & _ & D1 & _).
      assert (TE : timers (d (KeyDown ArrowDown) w) = timers w
                   /\ clock (d (KeyDown ArrowDown) w) = clock w
                   /\ (activeSuggestion (ui (d (KeyDown ArrowDown) w))
                       = activeSuggestion (ui w)
                       \/ activeSuggestion (ui (d (KeyDown ArrowDown) w))
                          = activeSuggestion (ui w) + 1)%Z)
        by (destruct Hd as [-> | ->]; simpl;
            unfold TimeoutVariant.onKeyDown, PromiseVariant.onKeyDown;
            cbn [Key_eqb andb]; split_ifs; repeat split; auto).
      destruct TE as (TE1 & TE2 & TE3).
      unfold Invariant, TimersOk. rewrite E1, E2, E3, TE1, TE2.
      repeat split; try assumption; try apply TO. lia.
    + assert (E : d (KeyDown Escape) w
                  = setValue (FStr "") (setShowSuggestions false w))
        by (destruct Hd as [-> | ->]; reflexivity).
      rewrite E. repeat split; simpl; eauto; apply TO.
    + destruct (JS.index (suggestions (ui w)) (activeSuggestion (ui w)))
        as [item|] eqn:I.
      * assert (E : d (KeyDown Enter) w = committed P item w
                    \/ d (KeyDown Enter) w = w).
        { destruct Hd as [-> | ->]; [left; now apply timeout_enter_commits|].
          destruct (value (ui w)) as [[|c s]|] eqn:Vw.
          - right. now apply promise_enter_ignored.
          - left. apply promise_enter_commits; [exact I | congruence].
          - left. apply promise_enter_commits; [exact I | congruence]. }
        destruct E as [-> | ->]; [now apply Commit | exact Inv].
      * assert (E : d (KeyDown Enter) w
                    = raise (Uncaught JS.TypeError) (setShowSuggestions false w)
                    \/ d (KeyDown Enter) w = w).
        { destruct Hd as [-> | ->]; simpl;
            unfold TimeoutVariant.onKeyDown, PromiseVariant.onKeyDown;
            cbn [Key_eqb andb]; rewrite I; split_ifs; auto. }
        destruct E as [-> | ->]; repeat split; simpl; try assumption; apply TO.
    + assert (E : d (KeyDown OtherKey) w = w)
        by (destruct Hd as [-> | ->]; reflexivity).
      rewrite E. exact Inv.
  - (* ItemClick *)
    assert (E : d (ItemClick k) w = w
                \/ exists x, In x (suggestions (ui w))
                             /\ d (ItemClick k) w = committed P x w).
    { destruct (showSuggestions (ui w)) eqn:Sh.
      - destruct (nth_error (suggestions (ui w)) k) as [x|] eqn:N.
        + right. exists x. split; [eapply nth_error_In; eauto|].
          destruct (commit_selection_click P w k x Sh N).
          destruct Hd as [-> | ->]; assumption.
        + left. destruct Hd as [-> | ->]; simpl;
            unfold TimeoutVariant.rendered, PromiseVariant.rendered;
            now rewrite Sh, N.
      - left. destruct Hd as [-> | ->]; simpl;
          unfold TimeoutVariant.rendered, PromiseVariant.rendered;
          now rewrite Sh. }
    destruct E as [-> | (x & I & ->)]; [exact Inv|].
    rewrite Forall_forall in S. destruct (S x I) as [D [v Fv]].
    split; [simpl; eauto|]. split; [apply Forall_forall; exact S|].
    split; [|split; [exact A | exact TO]].
    simpl. apply Forall_app. split; [exact H|].
    destruct (setSelectedItem P); repeat constructor; eauto.
  - (* ItemEnter *)
    assert (E : d (ItemEnter k) w = w
                \/ exists x, nth_error (suggestions (ui w)) k = Some x
                             /\ d (ItemEnter k) w
                                = setActiveSuggestion
                                    (fun _ => JS.indexOf (sameItem P)
                                                (suggestions (ui w)) x) w).
    { destruct (showSuggestions (ui w)) eqn:Sh;
        [destruct (nth_error (suggestions (ui w)) k) as [x|] eqn:N|].
      - right. exists x. split; [reflexivity|].
        destruct Hd as [-> | ->]; simpl;
          unfold TimeoutVariant.rendered, PromiseVariant.rendered;
          now rewrite Sh, N.
      - left. destruct Hd as [-> | ->]; simpl;
          unfold TimeoutVariant.rendered, PromiseVariant.rendered;
          now rewrite Sh, N.
      - left. destruct Hd as [-> | ->]; simpl;
          unfold TimeoutVariant.rendered, PromiseVariant.rendered;
          now rewrite Sh. }
    destruct E as [-> | (x & N & ->)]; [exact Inv|].
    repeat split; simpl; try assumption; try apply TO.
    apply (indexOf_le (sameItem P) _ k x (sameItem_refl x) N).
  - (* OutsideClick *)
    assert (E : d OutsideClick w = setShowSuggestions false w)
      by (destruct Hd as [-> | ->]; reflexivity).
    rewrite E. repeat split; simpl; try assumption; apply TO.
  - (* Elapse *)
    destruct (dispatch_elapse P d Hd) as [mk E]. rewrite E.
    destruct (settle_frame P mk (firing ms w) (afterAdvance ms w))
      as (E1 & E2 & E3 & _ & E5 & E6).
    pose proof (settle_suggestions P mk (firing ms w) (afterAdvance ms w) S) as S'.
    pose proof (TimersOk_advance ms w TO) as TO'.
    unfold Invariant, TimersOk in *. rewrite E1, E2, E3, E5, E6.
    repeat split; try assumption; apply TO'.
Qed.

Lemma Invariant_run (d : Event -> World T -> World T) (evs : list Event) (w : World T) :
  d = TimeoutVariant.dispatch P \/ d = PromiseVariant.dispatch P ->
  Invariant P w -> Invariant P (fold_left (fun w ev => d ev w) evs w).
Proof.
  intros Hd. revert w; induction evs as [|ev evs IH]; intros w I; simpl;
    [exact I|].
  apply IH. now apply Invariant_step.
Qed.

Lemma Invariant_mount : Invariant P mount.
Proof.
  repeat split; simpl; eauto; try lia; constructor.
Qed.

End Invariants.

(** From the mount on, whatever the user does and however time passes: the
    input text is a string; the suggestions and the items handed to the host
    are items of [data] whose filter field holds a string; the cursor is not
    negative; and the pending timers are due within the next second, oldest
    first, each for a non-empty input. *)
Theorem reachable_worlds_are_well_formed
  {T : Type} (P : Props T) (evs : list Event) :
  (forall x, sameItem P x x = true) ->
  Invariant P (TimeoutVariant.run P evs mount)
  /\ Invariant P (PromiseVariant.run P evs mount).
Proof.
  intros R. split.
  - apply (Invariant_run P R (TimeoutVariant.dispatch P)); [auto|].
    apply Invariant_mount.
  - apply (Invariant_run P R (PromiseVariant.dispatch P)); [auto|].
    apply Invariant_mount.
Qed.

Lemma PokemonCharacter_eqb_refl (x : PokemonCharacter) :
  PokemonCharacter_eqb x x = true.
Proof.
  unfold PokemonCharacter_eqb. now rewrite !String.eqb_refl.
Qed.

Lemma reachable_worlds_are_well_formed_witness :
  Invariant (pokemonProps pokedex)
    (TimeoutVariant.run (pokemonProps pokedex)
       [Change "i"; Elapse 500; Change "iv"; KeyDown ArrowDown; Elapse 700] mount)
  /\ Invariant (pokemonProps pokedex)
       (PromiseVariant.run (pokemonProps pokedex)
          [Change "i"; Elapse 500; Change "iv"; KeyDown ArrowDown; Elapse 700] mount).
Proof.
  apply (reachable_worlds_are_well_formed (pokemonProps pokedex)
           [Change "i"; Elapse 500; Change "iv"; KeyDown ArrowDown; Elapse 700]).
  exact PokemonCharacter_eqb_refl.
Defined.

Section Events.
Context {T : Type} (P : Props T).
Variable d : Event -> World T -> World T.
Hypothesis Hd : d = TimeoutVariant.dispatch P \/ d = PromiseVariant.dispatch P.

(** What the events other than the passing of time do: the list stays, the
    cursor and the rest are as the handlers say. *)
Lemma event_cases (ev : Event) (w : World T) :
  (exists ms, ev = Elapse ms)
  \/ d ev w = w
  \/ (exists input, ev = Change input
                    /\ suggestions (ui (d ev w)) = suggestions (ui w)
                    /\ activeSuggestion (ui (d ev w)) = 0%Z
                    /\ selected (d ev w) = selected w
                    /\ scrolls (d ev w) = scrolls w)
  \/ (ev = KeyDown ArrowUp /\ activeSuggestion (ui w) <> 0%Z
      /\ d ev w = (if showSuggestions (ui w)
                      && (2 * activeSuggestion (ui w)
                          <=? Z.of_nat (List.length (suggestions (ui w))))%Z
                   then scrollTo ScrollTop else fun w => w)
                    (setActiveSuggestion (fun prev => prev - 1)%Z w))
  \/ (ev = KeyDown ArrowDown
      /\ (activeSuggestion (ui w)
          < Z.of_nat (List.length (suggestions (ui w))) - 1)%Z
      /\ d ev w = (if showSuggestions (ui w)
                      && (Z.of_nat (List.length (suggestions (ui w)))
                          <=? 2 * activeSuggestion (ui w))%Z
                   then scrollTo ScrollBottom else fun w => w)
                    (setActiveSuggestion (fun prev => prev + 1)%Z w))
  \/ (ev = KeyDown Escape
      /\ d ev w = setValue (FStr "") (setShowSuggestions false w))
  \/ (ev = KeyDown Enter
      /\ JS.index (suggestions (ui w)) (activeSuggestion (ui w)) = None
      /\ d ev w = raise (Uncaught JS.TypeError) (setShowSuggestions false w))
  \/ (exists x, (ev = KeyDown Enter \/ exists k, ev = ItemClick k)
                /\ In x (suggestions (ui w))
                /\ d ev w = committed P x w)
  \/ (exists k x, ev = ItemEnter k
                  /\ nth_error (suggestions (ui w)) k = Some x
                  /\ d ev w = setActiveSuggestion
                                (fun _ => JS.indexOf (sameItem P)
                                            (suggestions (ui w)) x) w)
  \/ (ev = OutsideClick /\ d ev w = setShowSuggestions false w).
Proof.
  destruct ev as [input|key|k|k| |ms].
  - right; right; left. exists input. split; [reflexivity|].
    destruct Hd as [-> | ->]; simpl;
      unfold TimeoutVariant.handleOnChange, PromiseVariant.handleOnChange;
      split_ifs; repeat split.
  - destruct key.
    + destruct (Z.eq_dec (activeSuggestion (ui w)) 0) as [Z | Z].
      * right; left. now apply (cursor_moves P d w Hd).
      * do 3 right; left. split; [reflexivity|]. split; [exact Z|].
        apply Z.eqb_neq in Z.
        destruct Hd as [-> | ->];
          cbn [TimeoutVariant.dispatch PromiseVariant.dispatch];
          unfold TimeoutVariant.onKeyDown, PromiseVariant.onKeyDown;
          cbn [Key_eqb andb]; rewrite Z; cbn [negb]; split_ifs; reflexivity.
    + destruct (activeSuggestion (ui w)
                <? Z.of_nat (List.length (suggestions (ui w))) - 1)%Z eqn:L.
      * do 4 right; left. split; [reflexivity|].
        split; [now apply Z.ltb_lt|].
        destruct Hd as [-> | ->];
          cbn [TimeoutVariant.dispatch PromiseVariant.dispatch];
          unfold TimeoutVariant.onKeyDown, PromiseVariant.onKeyDown;
          cbn [Key_eqb andb]; rewrite L; split_ifs; reflexivity.
      * right; left.
        destruct Hd as [-> | ->];
          cbn [TimeoutVariant.dispatch PromiseVariant.dispatch];
          unfold TimeoutVariant.onKeyDown, PromiseVariant.onKeyDown;
          cbn [Key_eqb andb]; rewrite L; reflexivity.
    + do 5 right; left. split; [reflexivity|].
      destruct Hd as [-> | ->]; reflexivity.
    + destruct (JS.index (suggestions (ui w)) (activeSuggestion (ui w)))
        as [item|] eqn:I.
      * assert (In item (suggestions (ui w))).
        { unfold JS.index in I.
          destruct (activeSuggestion (ui w) <? 0)%Z; [discriminate|].
          eapply nth_error_In; eauto. }
        destruct Hd as [-> | ->].
        -- do 7 right; left. exists item. split; [auto|]. split; [assumption|].
           now apply timeout_enter_commits.
        -- destruct (value (ui w)) as [[|c s]|] eqn:Vw.
           ++ right; left. now apply promise_enter_ignored.
           ++ do 7 right; left. exists item. split; [auto|]. split; [assumption|].
              apply promise_enter_commits; [exact I | congruence].
           ++ do 7 right; left. exists item. split; [auto|]. split; [assumption|].
              apply promise_enter_commits; [exact I | congruence].
      * destruct Hd as [-> | ->].
        -- do 6 right; left. split; [reflexivity|]. split; [reflexivity|].
           simpl. unfold TimeoutVariant.onKeyDown. cbn [Key_eqb andb].
           now rewrite I.
        -- assert (E : PromiseVariant.dispatch P (KeyDown Enter) w
                       = raise (Uncaught JS.TypeError) (setShowSuggestions false w)
                       \/ PromiseVariant.dispatch P (KeyDown Enter) w = w).
           { simpl. unfold PromiseVariant.onKeyDown. cbn [Key_eqb andb].
             rewrite I. split_ifs; auto. }
           destruct E as [E | E]; [|right; left; exact E].
           do 6 right; left. repeat split. exact E.
    + right; left. destruct Hd as [-> | ->]; reflexivity.
  - destruct (showSuggestions (ui w)) eqn:Sh;
      [destruct (nth_error (suggestions (ui w)) k) as [x|] eqn:N|].
    + do 7 right; left. exists x. split; [eauto|].
      split; [eapply nth_error_In; eauto|].
      destruct (commit_selection_click P w k x Sh N).
      destruct Hd as [-> | ->]; assumption.
    + right; left. destruct Hd as [-> | ->]; simpl;
        unfold TimeoutVariant.rendered, PromiseVariant.rendered;
        now rewrite Sh, N.
    + right; left. destruct Hd as [-> | ->]; simpl;
        unfold TimeoutVariant.rendered, PromiseVariant.rendered;
        now rewrite Sh.
  - destruct (showSuggestions (ui w)) eqn:Sh;
      [destruct (nth_error (suggestions (ui w)) k) as [x|] eqn:N|].
    + do 8 right; left. exists k, x. split; [reflexivity|]. split; [exact N|].
      destruct Hd as [-> | ->]; simpl;
        unfold TimeoutVariant.rendered, PromiseVariant.rendered;
        now rewrite Sh, N.
    + right; left. destruct Hd as [-> | ->]; simpl;
        unfold TimeoutVariant.rendered, PromiseVariant.rendered;
        now rewrite Sh, N.
    + right; left. destruct Hd as [-> | ->]; simpl;
        unfold TimeoutVariant.rendered, PromiseVariant.rendered;
        now rewrite Sh.
  - do 9 right. split; [reflexivity|]. destruct Hd as [-> | ->]; reflexivity.
  - left. eauto.
Qed.

End Events.

(** Every event but the passing of time leaves the list as it is and keeps a
    cursor that is in the list in the list.  The cursor can leave the list
    only when a request completes. *)
Theorem cursor_stays_in_list
  {T : Type} (P : Props T) (d : Event -> World T -> World T)
  (ev : Event) (w : World T) :
  d = TimeoutVariant.dispatch P \/ d = PromiseVariant.dispatch P ->
  (forall x, sameItem P x x = true) ->
  (forall ms, ev <> Elapse ms) ->
  CursorInList (ui w) ->
  suggestions (ui (d ev w)) = suggestions (ui w)
  /\ CursorInList (ui (d ev w)).
Proof.
  intros Hd R NE C. unfold CursorInList in *.
  destruct (event_cases P d Hd ev w)
    as [[ms E] | [E | [(input & _ & E1 & E2 & _) | [(_ & Z & E)
       | [(_ & L & E) | [(_ & E) | [(_ & _ & E) | [(x & _ & _ & E)
       | [(k & x & _ & N & E) | (_ & E)]]]]]]]]].
  - exfalso. eapply NE; eauto.
  - rewrite E. auto.
  - rewrite E1, E2. split; [reflexivity|]. intros NN.
    destruct (suggestions (ui w)); [congruence | simpl; lia].
  - rewrite E. split; [split_ifs; reflexivity|]. intros NN.
    assert (X : suggestions (ui w) <> []) by (revert NN; split_ifs; auto).
    specialize (C X). split_ifs; simpl; lia.
  - rewrite E. split; [split_ifs; reflexivity|]. intros NN.
    assert (X : suggestions (ui w) <> []) by (revert NN; split_ifs; auto).
    specialize (C X). split_ifs; simpl; lia.
  - rewrite E. auto.
  - rewrite E. auto.
  - rewrite E. auto.
  - rewrite E. simpl. split; [reflexivity|]. intros _.
    pose proof (indexOf_le (sameItem P) _ k x (R x) N).
    pose proof (indexOf_range (sameItem P) (suggestions (ui w)) x). lia.
  - rewrite E. auto.
Qed.

Lemma cursor_stays_in_list_witness :
  suggestions (ui (PromiseVariant.dispatch (pokemonProps pokedex)
                     (KeyDown ArrowDown) onixVisible))
  = suggestions (ui onixVisible)
  /\ CursorInList (ui (PromiseVariant.dispatch (pokemonProps pokedex)
                         (KeyDown ArrowDown) onixVisible)).
Proof.
  apply (cursor_stays_in_list (pokemonProps pokedex)
           (PromiseVariant.dispatch (pokemonProps pokedex))
           (KeyDown ArrowDown) onixVisible).
  - right. reflexivity.
  - exact PokemonCharacter_eqb_refl.
  - discriminate.
  - intros _. simpl. lia.
Defined.

(** The host callback is called at most once per event, only by Enter or by
    a click on an entry, only when the host supplied it, and only with an
    item that is in the suggestion list at that moment. *)
Theorem host_is_called_on_commit_only
  {T : Type} (P : Props T) (d : Event -> World T -> World T)
  (ev : Event) (w : World T) :
  d = TimeoutVariant.dispatch P \/ d = PromiseVariant.dispatch P ->
  selected (d ev w) = selected w
  \/ exists x,
       selected (d ev w) = (selected w ++ [x])%list
       /\ setSelectedItem P = true
       /\ In x (suggestions (ui w))
       /\ (ev = KeyDown Enter \/ exists k, ev = ItemClick k).
Proof.
  intros Hd.
  destruct (event_cases P d Hd ev w)
    as [[ms E] | [E | [(input & _ & _ & _ & E & _) | [(_ & Z & E)
       | [(_ & L & E) | [(_ & E) | [(_ & _ & E) | [(x & K & I & E)
       | [(k & x & _ & N & E) | (_ & E)]]]]]]]]].
  - subst ev. left.
    now destruct (time_frame_selected P d Hd ms w).
  - left. now rewrite E.
  - left. exact E.
  - left. rewrite E. split_ifs; reflexivity.
  - left. rewrite E. split_ifs; reflexivity.
  - left. now rewrite E.
  - left. now rewrite E.
  - rewrite E. simpl. destruct (setSelectedItem P) eqn:S.
    + right. exists x. auto.
    + left. now rewrite app_nil_r.
  - left. now rewrite E.
  - left. now rewrite E.
Qed.

Lemma host_is_called_on_commit_only_witness :
  selected (TimeoutVariant.dispatch (pokemonProps pokedex) (KeyDown Enter) onixVisible)
  = selected onixVisible
  \/ exists x,
       selected (TimeoutVariant.dispatch (pokemonProps pokedex) (KeyDown Enter)
                   onixVisible)
       = (selected onixVisible ++ [x])%list
       /\ setSelectedItem (pokemonProps pokedex) = true
       /\ In x (suggestions (ui onixVisible))
       /\ (KeyDown Enter = KeyDown Enter \/ exists k, KeyDown Enter = ItemClick k).
Proof.
  apply (host_is_called_on_commit_only (pokemonProps pokedex)
           (TimeoutVariant.dispatch (pokemonProps pokedex)) (KeyDown Enter) onixVisible).
  left. reflexivity.
Defined.

(** While the list is hidden nothing scrolls, whatever the event. *)
Theorem hidden_list_never_scrolls
  {T : Type} (P : Props T) (d : Event -> World T -> World T)
  (ev : Event) (w : World T) :
  d = TimeoutVariant.dispatch P \/ d = PromiseVariant.dispatch P ->
  showSuggestions (ui w) = false ->
  scrolls (d ev w) = scrolls w.
Proof.
  intros Hd Sh.
  destruct (event_cases P d Hd ev w)
    as [[ms E] | [E | [(input & _ & _ & _ & _ & E) | [(_ & Z & E)
       | [(_ & L & E) | [(_ & E) | [(_ & _ & E) | [(x & K & I & E)
       | [(k & x & _ & N & E) | (_ & E)]]]]]]]]];
    try (rewrite E; rewrite ?Sh; reflexivity).
  subst ev. now destruct (time_frame_selected P d Hd ms w).
Qed.

Lemma hidden_list_never_scrolls_witness :
  scrolls (TimeoutVariant.dispatch (pokemonProps pokedex) (KeyDown ArrowDown)
             (mkWorld (mkState (FStr "i") false [ivysaur; onix] 0%Z) 1000 [] [] [] []))
  = [].
Proof.
  apply (hidden_list_never_scrolls (pokemonProps pokedex)
           (TimeoutVariant.dispatch (pokemonProps pokedex)) (KeyDown ArrowDown)
           (mkWorld (mkState (FStr "i") false [ivysaur; onix] 0%Z) 1000 [] [] [] [])).
  - left. reflexivity.
  - reflexivity.
Defined.

(** When the key handler throws: in [index.tsx] exactly on Enter with the
    cursor on no item of the list (an empty list included); in the version
    with the promise exactly on Enter with a non-empty text, a non-empty list
    and the cursor on no item of it.  No other key ever throws. *)
Theorem key_handler_throws_iff
  {T : Type} (P : Props T) (key : Key) (w : World T) :
  (errors (TimeoutVariant.onKeyDown P key w) <> errors w
   <-> key = Enter
       /\ JS.index (suggestions (ui w)) (activeSuggestion (ui w)) = None)
  /\ (errors (PromiseVariant.onKeyDown P key w) <> errors w
      <-> key = Enter
          /\ value (ui w) <> FStr ""
          /\ suggestions (ui w) <> []
          /\ JS.index (suggestions (ui w)) (activeSuggestion (ui w)) = None).
Proof.
  split.
  - destruct (event_cases P (TimeoutVariant.dispatch P) (or_introl eq_refl)
                (KeyDown key) w)
      as [[ms E] | [E | [(input & E & _) | [(E0 & Z & E)
         | [(E0 & L & E) | [(E0 & E) | [(E0 & I & E) | [(x & K & I & E)
         | [(k & x & E & _) | (E & _)]]]]]]]]]; try discriminate;
      cbn [TimeoutVariant.dispatch] in E.
    + rewrite E. split; [congruence|]. intros [-> I].
      revert E. unfold TimeoutVariant.onKeyDown. cbn [Key_eqb andb].
      rewrite I. simpl. intros E. apply (f_equal errors) in E. simpl in E.
      now apply snoc_neq in E.
    + rewrite E. injection E0 as ->.
      split; [split_ifs; simpl; congruence | intros [? _]; discriminate].
    + rewrite E. injection E0 as ->.
      split; [split_ifs; simpl; congruence | intros [? _]; discriminate].
    + rewrite E. injection E0 as ->.
      split; [simpl; congruence | intros [? _]; discriminate].
    + rewrite E. injection E0 as ->. simpl.
      split; [auto | intros _; apply snoc_neq].
    + rewrite E. simpl. split; [congruence|]. intros [-> N].
      destruct K as [_ | [k K]]; [|discriminate].
      revert E. unfold TimeoutVariant.onKeyDown. cbn [Key_eqb andb].
      rewrite N. simpl. intros E. apply (f_equal errors) in E. simpl in E.
      now apply snoc_neq in E.
  - destruct (event_cases P (PromiseVariant.dispatch P) (or_intror eq_refl)
                (KeyDown key) w)
      as [[ms E] | [E | [(input & E & _) | [(E0 & Z & E)
         | [(E0 & L & E) | [(E0 & E) | [(E0 & I & E) | [(x & K & I & E)
         | [(k & x & E & _) | (E & _)]]]]]]]]]; try discriminate;
      cbn [PromiseVariant.dispatch] in E.
    + rewrite E. split; [congruence|]. intros (-> & V & S & I).
      revert E. unfold PromiseVariant.onKeyDown. cbn [Key_eqb andb].
      rewrite (nonEmptyValue_true _ V), I.
      replace (0 <? Z.of_nat (List.length (suggestions (ui w))))%Z with true
        by (symmetry; apply Z.ltb_lt; destruct (suggestions (ui w));
            [congruence | simpl; lia]).
      simpl. intros E. apply (f_equal errors) in E. simpl in E.
      now apply snoc_neq in E.
    + rewrite E. injection E0 as ->.
      split; [split_ifs; simpl; congruence | intros [? _]; discriminate].
    + rewrite E. injection E0 as ->.
      split; [split_ifs; simpl; congruence | intros [? _]; discriminate].
    + rewrite E. injection E0 as ->.
      split; [simpl; congruence | intros [? _]; discriminate].
    + injection E0 as ->. split; [|intros _; rewrite E; apply snoc_neq].
      intros _. split; [reflexivity|].
      revert E. unfold PromiseVariant.onKeyDown. cbn [Key_eqb andb].
      rewrite I.
      destruct (value (ui w)) as [[|c s]|]; simpl;
        destruct (suggestions (ui w)); simpl; intros E;
        try (apply (f_equal errors) in E; simpl in E; symmetry in E;
             now apply snoc_neq in E);
        repeat split; congruence.
    + rewrite E. simpl. split; [congruence|]. intros (-> & V & S & N).
      destruct K as [_ | [k K]]; [|discriminate].
      assert (X : PromiseVariant.onKeyDown P Enter w = committed P x w) by exact E.
      revert X. unfold PromiseVariant.onKeyDown. cbn [Key_eqb andb].
      rewrite (nonEmptyValue_true _ V), N.
      replace (0 <? Z.of_nat (List.length (suggestions (ui w))))%Z with true
        by (symmetry; apply Z.ltb_lt; destruct (suggestions (ui w));
            [congruence | simpl; lia]).
      simpl. intros X. apply (f_equal errors) in X. simpl in X.
      now apply snoc_neq in X.
Qed.

(** Escape followed by Enter: [index.tsx] commits the item under the cursor
    although the list is hidden and the text was cleared; the version with
    the promise ignores the Enter. *)
Theorem escape_then_enter
  {T : Type} (P : Props T) (w : World T) (item : T) :
  JS.index (suggestions (ui w)) (activeSuggestion (ui w)) = Some item ->
  TimeoutVariant.run P [KeyDown Escape; KeyDown Enter] w
  = committed P item (TimeoutVariant.dispatch P (KeyDown Escape) w)
  /\ PromiseVariant.run P [KeyDown Escape; KeyDown Enter] w
     = PromiseVariant.dispatch P (KeyDown Escape) w.
Proof.
  intros I. split; simpl.
  - apply timeout_enter_commits. exact I.
  - apply promise_enter_ignored. reflexivity.
Qed.

Lemma escape_then_enter_witness :
  TimeoutVariant.run (pokemonProps pokedex) [KeyDown Escape; KeyDown Enter] onixVisible
  = committed (pokemonProps pokedex) onix
      (TimeoutVariant.dispatch (pokemonProps pokedex) (KeyDown Escape) onixVisible)
  /\ PromiseVariant.run (pokemonProps pokedex) [KeyDown Escape; KeyDown Enter]
       onixVisible
     = PromiseVariant.dispatch (pokemonProps pokedex) (KeyDown Escape) onixVisible.
Proof.
  apply (escape_then_enter (pokemonProps pokedex) onixVisible onix).
  reflexivity.
Defined.

(** ** What the user sees after typing *)





(** What the witness shows on screen: onix, active, with [on] marked. *)
Example view_after_typing_on :
  renderList (pokemonProps pokedex)
    (ui (TimeoutVariant.run (pokemonProps pokedex) [Change "on"; Elapse 1000] mount))
  = Some [SuggestionEntry onix true (Some (InnerHTML (emphasis "on" ++ "ix")))].
Proof. reflexivity. Qed.

Lemma replace_dot (rep v : string) :
  singleLine v = true ->
  RegExp.replaceFrom [RegExp.AnyChar] rep 0 v = repeatString (String.length v) rep.
Proof.
  induction v as [|c v IH]; intros H; [reflexivity|].
  simpl in H. apply andb_true_iff in H as [C S].
  rewrite replaceFrom_start. simpl. rewrite C. now rewrite IH.
Qed.

(** A dot in the query is not taken literally: for the query [.] every
    character of a one-line text counts as a match, so each is replaced by
    an emphasised dot and nothing of the text is left. *)
Theorem highlight_dot_replaces_everything (v : string) :
  v <> "" -> singleLine v = true ->
  HighlightSearchValue "." v
  = Some (InnerHTML (repeatString (String.length v) (emphasis "."))).
Proof.
  intros N S. unfold HighlightSearchValue. simpl RegExp.compile.
  destruct v as [|c v]; [congruence|].
  unfold RegExp.replace. rewrite (replace_dot _ _ S).
  simpl in S. apply andb_true_iff in S as [C _].
  simpl. now rewrite C.
Qed.

Lemma highlight_dot_replaces_everything_witness :
  HighlightSearchValue "." "onix"
  = Some (InnerHTML (repeatString 4 (emphasis "."))).
Proof.
  apply (highlight_dot_replaces_everything "onix").
  - discriminate.
  - reflexivity.
Defined.

(** ** Letters beyond [A-Z] *)

(** The small a with ring finds the Aland Islands, and nothing else. *)
Example filter_aland :
  filterData (CountriesApp.props (Some [finland; aland])) smallARing
  = JS.Normal [CountriesApp.entry aland].
Proof. reflexivity. Qed.

Example highlight_aland :
  HighlightSearchValue smallARing (capitalARing ++ "land Islands")
  = Some (InnerHTML (emphasis smallARing ++ "land Islands")).
Proof. reflexivity. Qed.

Example aring_same_letter : EqIgnoreCase capitalARing smallARing.
Proof.
  constructor; [|constructor]. apply (upper_lower 197). right. lia.
Qed.

(** The multiplication sign 215 and the sharp s 223 have no other case. *)
Example times_and_sharp_s :
  JS.toLowerCase (String (ascii_of_nat 215) (String (ascii_of_nat 223) ""))
  = String (ascii_of_nat 215) (String (ascii_of_nat 223) "").
Proof. reflexivity. Qed.
